(** * FilmFusion: the Letterboxd watchlist scraper and comparison engine

    A shallow embedding of [src/main.py] (class [LetterboxdScraper]) and
    theorems about watchlist extraction, pagination, retrieval and
    comparison.

    Modelling conventions.
    - Python [str] values are Rocq strings holding the UTF-8 encoding of
      the text; [str.isdigit] and [int] work on the code points, with the
      digits of Unicode 14.0 (CPython 3.11).
    - Python [int] is [Z]; the [float] values computed by true division are
      kept as exact rationals in [Q] (binary64 rounding is not modelled).
    - A parsed document ([BeautifulSoup]) is a tree of tags and strings; the
      HTML parser itself is outside the model.
    - The network and the SQLite file are an environment ([world]) that
      answers the n-th request; every request may fail.
    - Exceptions are values of type [exn]; [try]/[except] is a match on the
      outcome of the protected block. *)

From Stdlib Require Import QArith Ascii String.
From stdpp Require Import gmap strings list pretty.

Set Warnings "-register-all".

Open Scope string_scope.
Open Scope list_scope.

(** ** Movie records *)

(** [MovieInfo]: a dataclass with a title and a list of genres that
    defaults to the empty list. *)
Record MovieInfo := mkMovieInfo {
  title : string;
  genres : list string
}.

#[global] Instance MovieInfo_eq_dec : EqDecision MovieInfo.
Proof. solve_decision. Defined.

(** [MovieInfo(title=t)]: the constructor call used by the scraper. *)
Definition MovieInfo_of_title (t : string) : MovieInfo :=
  {| title := t; genres := [] |}.

(** ** Parsed documents *)

(** A node of a parsed page: a text node or a tag with its name, the
    values of its [class] attribute, its other attributes and its
    children. *)
Inductive node :=
| NavigableString (s : string)
| Tag (name : string) (classes : list string) (attrs : gmap string string)
      (contents : list node).

(** All nodes strictly below [n], in document order. *)
Fixpoint descendants (n : node) : list node :=
  match n with
  | NavigableString _ => []
  | Tag _ _ _ cs => flat_map (fun c => c :: descendants c) cs
  end.

(** The test behind [find(name, class_=cls)]: a tag of that name carrying
    that class. *)
Definition matches (name cls : string) (n : node) : bool :=
  match n with
  | NavigableString _ => false
  | Tag nm cl _ _ => bool_decide (nm = name) && bool_decide (cls ∈ cl)
  end.

(** [n.find_all(name, class_=cls)]. *)
Definition find_all (name cls : string) (n : node) : list node :=
  List.filter (matches name cls) (descendants n).

(** [n.find(name, class_=cls)]: the first match, or [None]. *)
Definition find (name cls : string) (n : node) : option node :=
  head (find_all name cls n).

(** [n.find_all('a')]: every anchor below [n]. *)
Definition is_tag (name : string) (n : node) : bool :=
  match n with
  | NavigableString _ => false
  | Tag nm _ _ _ => bool_decide (nm = name)
  end.

Definition find_all_tags (name : string) (n : node) : list node :=
  List.filter (is_tag name) (descendants n).

(** [n.text]: the strings below [n], concatenated. *)
Fixpoint text (n : node) : string :=
  match n with
  | NavigableString s => s
  | Tag _ _ _ cs => String.concat "" (map text cs)
  end.

(** [n.attrs]. *)
Definition node_attrs (n : node) : gmap string string :=
  match n with
  | NavigableString _ => ∅
  | Tag _ _ a _ => a
  end.

(** [n.get(key)]. *)
Definition get (key : string) (n : node) : option string :=
  node_attrs n !! key.

(** Truth value of an optional string: [None] and [''] are false. *)
Definition truthy (o : option string) : bool :=
  match o with
  | Some s => negb (bool_decide (s = ""))
  | None => false
  end.

(** ** Extraction *)

(** [_extract_movie_info]. *)
Definition _extract_movie_info (film_poster : node) : option MovieInfo :=
  let film_title := get "data-film-name" film_poster in
  let film_title :=
    if truthy film_title then film_title
    else match find "img" "image" film_poster with
         | Some img => node_attrs img !! "alt"
         | None => None
         end in
  match film_title with
  | Some t => if truthy film_title then Some (MovieInfo_of_title t) else None
  | None => None
  end.

(** The three grid markers, tried in this order. *)
Definition find_film_grid (soup : node) : option node :=
  match find "ul" "poster-list" soup with
  | Some g => Some g
  | None =>
      match find "ul" "films-grid" soup with
      | Some g => Some g
      | None => find "div" "films-grid" soup
      end
  end.

(** [_parse_movie_page]. *)
Definition _parse_movie_page (soup : node) : list MovieInfo :=
  match find_film_grid soup with
  | None =>
      omap _extract_movie_info (find_all "div" "film-poster" soup)
  | Some film_grid =>
      omap (fun film_item =>
              match find "div" "film-poster" film_item with
              | Some film_poster => _extract_movie_info film_poster
              | None => None
              end)
           (find_all "li" "poster-container" film_grid)
  end.

(** ** Exceptions, the environment and the scraper's state *)

(** The exceptions that reach a handler of the scraper. A [ValueError]
    carries its message. *)
Inductive exn :=
| ValueError (msg : string)
| RequestException
| DatabaseError
| ZeroDivisionError
| CallbackError.

#[global] Instance exn_eq_dec : EqDecision exn.
Proof. solve_decision. Defined.

(** The outcome of running a block: a value or a raised exception. *)
Inductive outcome (A : Type) :=
| Return (a : A)
| Raise (e : exn).
Arguments Return {A} a.
Arguments Raise {A} e.

(** What [session.get] can produce once the transport's retries are over:
    a response (status code and parsed body) or an exception. *)
Inductive http_outcome :=
| Response (status_code : Z) (soup : node)
| ConnectionFailed.

(** The calls made on the persistence collaborator ([DatabaseManager]). *)
Inductive db_call :=
| GetUser (username : string)
| AddUser (username : string)
| AddUserMovie (username username2 movie_title : string)
| UpdateUserSyncTime (username : string)
| SaveCommonMovies (username1 username2 : string) (movies : list MovieInfo).

(** A database call answers (for [get_user]: whether the row exists) or
    raises. *)
Inductive db_outcome :=
| DbReturn (found : bool)
| DbRaise.

(** The environment: the answer to the n-th HTTP request and to the n-th
    database call. *)
Record world := mkWorld {
  http : nat -> string -> http_outcome;
  db : nat -> db_call -> db_outcome
}.

(** What a run does, in order. *)
Inductive event :=
| EvGet (url : string)
| EvProgress (progress : Q) (username : string)
| EvSleep
| EvDb (call : db_call).

(** The scraper object ([common_movies], [error_message]) together with
    the number of requests and database calls made so far and the events
    of the run. [error_message] holds the username and the exception the
    message is formatted from; [None] stands for the initial empty
    string. *)
Record state := mkState {
  common_movies : list MovieInfo;
  error_message : option (string * exn);
  sent : nat;
  db_calls : nat;
  trace : list event
}.

(** [LetterboxdScraper.__init__]. *)
Definition init : state :=
  {| common_movies := []; error_message := None;
     sent := 0; db_calls := 0; trace := [] |}.

Definition M (A : Type) : Type := state -> outcome A * state.

Definition ret {A} (a : A) : M A := fun s => (Return a, s).
Definition raise {A} (e : exn) : M A := fun s => (Raise e, s).
Definition bind {A B} (m : M A) (k : A -> M B) : M B :=
  fun s => match m s with
           | (Return a, s') => k a s'
           | (Raise e, s') => (Raise e, s')
           end.
Definition lift {A} (o : outcome A) : M A := fun s => (o, s).

(** [try: m except Exception as e: h e]. *)
Definition try_except {A} (m : M A) (h : exn -> M A) : M A :=
  fun s => match m s with
           | (Return a, s') => (Return a, s')
           | (Raise e, s') => h e s'
           end.

Notation "x <- m ;; k" := (bind m (fun x => k))
  (at level 100, m at next level, right associativity).
Notation "m ;;; k" := (bind m (fun _ => k))
  (at level 100, right associativity).

Definition emit (e : event) : M unit :=
  fun s => (Return tt,
            {| common_movies := common_movies s;
               error_message := error_message s;
               sent := sent s; db_calls := db_calls s;
               trace := trace s ++ [e] |}).

Definition set_common_movies (l : list MovieInfo) : M unit :=
  fun s => (Return tt,
            {| common_movies := l;
               error_message := error_message s;
               sent := sent s; db_calls := db_calls s;
               trace := trace s |}).

Definition set_error_message (username : string) (e : exn) : M unit :=
  fun s => (Return tt,
            {| common_movies := common_movies s;
               error_message := Some (username, e);
               sent := sent s; db_calls := db_calls s;
               trace := trace s |}).

Definition get_common_movies : M (list MovieInfo) :=
  fun s => (Return (common_movies s), s).

(** Python's [a / b] on integers. *)
Definition truediv (a b : Z) : outcome Q :=
  if decide (b = 0%Z) then Raise ZeroDivisionError
  else Return (inject_Z a / inject_Z b)%Q.

(** [time.sleep(1)]. *)
Definition sleep : M unit := emit EvSleep.

(** A progress callback: called with a percentage and a username, it
    returns or raises. *)
Definition callback : Type := Q -> string -> outcome unit.

(** ** Page numbers *)

(** The characters of a Python string are the code points that its UTF-8
    encoding spells. A byte that starts no well-formed sequence is read as
    U+FFFD; the encoding of a Python string has none. *)
Definition continuation (b : N) : bool := ((128 <=? b) && (b <? 192))%N.

Fixpoint decode_utf8 (bytes : list N) : list N :=
  match bytes with
  | [] => []
  | b0 :: rest =>
      if (b0 <? 128)%N then b0 :: decode_utf8 rest
      else
        match rest with
        | [] => [65533%N]
        | b1 :: rest1 =>
            if ((192 <=? b0) && (b0 <? 224))%N && continuation b1
            then ((b0 - 192) * 64 + (b1 - 128))%N :: decode_utf8 rest1
            else
              match rest1 with
              | [] => 65533%N :: decode_utf8 rest
              | b2 :: rest2 =>
                  if ((224 <=? b0) && (b0 <? 240))%N
                     && continuation b1 && continuation b2
                  then ((b0 - 224) * 4096 + (b1 - 128) * 64 + (b2 - 128))%N
                       :: decode_utf8 rest2
                  else
                    match rest2 with
                    | [] => 65533%N :: decode_utf8 rest
                    | b3 :: rest3 =>
                        if ((240 <=? b0) && (b0 <? 248))%N
                           && continuation b1 && continuation b2
                           && continuation b3
                        then ((b0 - 240) * 262144 + (b1 - 128) * 4096
                              + (b2 - 128) * 64 + (b3 - 128))%N
                             :: decode_utf8 rest3
                        else 65533%N :: decode_utf8 rest
                    end
              end
        end
  end.

Definition code_points (s : string) : list N :=
  decode_utf8 (map N_of_ascii (list_ascii_of_string s)).

(** The decimal digits of Unicode 14.0 (the character database of
    CPython 3.11), as ranges of code points: every range holds the digits
    0 to 9 of one script in order, once or several times over. These are
    the characters with [str.isdecimal], the ones [int] reads. *)
Definition decimal_digits : list (N * N) :=
  [ (48, 57); (1632, 1641); (1776, 1785); (1984, 1993); (2406, 2415);
    (2534, 2543); (2662, 2671); (2790, 2799); (2918, 2927); (3046, 3055);
    (3174, 3183); (3302, 3311); (3430, 3439); (3558, 3567); (3664, 3673);
    (3792, 3801); (3872, 3881); (4160, 4169); (4240, 4249); (6112, 6121);
    (6160, 6169); (6470, 6479); (6608, 6617); (6784, 6793); (6800, 6809);
    (6992, 7001); (7088, 7097); (7232, 7241); (7248, 7257); (42528, 42537);
    (43216, 43225); (43264, 43273); (43472, 43481); (43504, 43513);
    (43600, 43609); (44016, 44025); (65296, 65305); (66720, 66729);
    (68912, 68921); (69734, 69743); (69872, 69881); (69942, 69951);
    (70096, 70105); (70384, 70393); (70736, 70745); (70864, 70873);
    (71248, 71257); (71360, 71369); (71472, 71481); (71904, 71913);
    (72016, 72025); (72784, 72793); (73040, 73049); (73120, 73129);
    (92768, 92777); (92864, 92873); (93008, 93017); (120782, 120831);
    (123200, 123209); (123632, 123641); (125264, 125273);
    (130032, 130041) ]%N.

(** The other characters with [str.isdigit]: superscript and subscript
    digits, circled, parenthesised and full-stop digits and the like.
    [int] reads none of them. *)
Definition other_digits : list (N * N) :=
  [ (178, 179); (185, 185); (4969, 4977); (6618, 6618); (8304, 8304);
    (8308, 8313); (8320, 8329); (9312, 9320); (9332, 9340); (9352, 9360);
    (9450, 9450); (9461, 9469); (9471, 9471); (10102, 10110);
    (10112, 10120); (10122, 10130); (68160, 68163); (69216, 69224);
    (69714, 69722); (127232, 127242) ]%N.

Definition in_range (c : N) (r : N * N) : bool :=
  ((fst r <=? c) && (c <=? snd r))%N.

(** The value of a decimal digit. *)
Definition decimal (c : N) : option Z :=
  match List.find (in_range c) decimal_digits with
  | Some r => Some (Z.of_N ((c - fst r) mod 10))
  | None => None
  end.

Definition is_decimal (c : N) : bool :=
  match decimal c with Some _ => true | None => false end.

Definition is_digit (c : N) : bool :=
  is_decimal c || existsb (in_range c) other_digits.

(** [s.isdigit()]: at least one character, all of them digits. *)
Definition isdigit (s : string) : bool :=
  match code_points s with
  | [] => false
  | c :: cs => forallb is_digit (c :: cs)
  end.

(** The values of the decimal digits at the head of a string. *)
Fixpoint leading_decimals (cs : list N) : list Z :=
  match cs with
  | [] => []
  | c :: cs' =>
      match decimal c with
      | Some d => d :: leading_decimals cs'
      | None => []
      end
  end.

(** The number read from a list of digit values, most significant first. *)
Definition int_from (acc : Z) (ds : list Z) : Z :=
  fold_left (fun acc d => (10 * acc + d)%Z) ds acc.

(** [sys.get_int_max_str_digits()], at its default. *)
Definition int_max_str_digits : Z := 4300.

(** [int(s)] for a string without white space, sign or underscore, as
    every string that passes [isdigit] is. The conversion reads the
    decimal digits at the head of the string: more than
    [int_max_str_digits] of them are refused, and so is a string that
    does not consist of them. *)
Definition int (s : string) : outcome Z :=
  let cs := code_points s in
  let ds := leading_decimals cs in
  if (int_max_str_digits <? Z.of_nat (length ds))%Z
  then Raise (ValueError
                ("Exceeds the limit (4300 digits) for integer string conversion: value has "
                 +:+ pretty (length ds)
                 +:+ " digits; use sys.set_int_max_str_digits() to increase the limit"))
  else if bool_decide (ds = []) || negb (length ds =? length cs)%nat
  then Raise (ValueError
                ("invalid literal for int() with base 10: '" +:+ s +:+ "'"))
  else Return (int_from 0 ds).

(** [max(xs, default=d)]. *)
Definition max_default (xs : list Z) (d : Z) : Z :=
  match xs with
  | [] => d
  | x :: xs' => fold_left Z.max xs' x
  end.

(** The generator [(int(a.text) for a in anchors if a.text.isdigit())],
    consumed to its end: the first label that [int] refuses raises. *)
Fixpoint int_labels (anchors : list node) : outcome (list Z) :=
  match anchors with
  | [] => Return []
  | a :: anchors' =>
      if isdigit (text a) then
        match int (text a) with
        | Raise e => Raise e
        | Return n =>
            match int_labels anchors' with
            | Raise e => Raise e
            | Return ns => Return (n :: ns)
            end
        end
      else int_labels anchors'
  end.

(** The labels of the links of a pagination control that pass
    [isdigit], as integers. *)
Definition page_numbers (pagination : node) : outcome (list Z) :=
  int_labels (find_all_tags "a" pagination).

(** The computation of [last_page] from the first page. *)
Definition last_page_of (initial_page : node) : outcome Z :=
  match find "div" "pagination" initial_page with
  | Some pagination =>
      match page_numbers pagination with
      | Raise e => Raise e
      | Return ns => Return (max_default ns 1%Z)
      end
  | None => Return 1%Z
  end.

(** ** Comparison results *)

Record statistics := mkStatistics {
  overlap_percentage : Q;
  total_unique_movies : nat
}.

(** The dictionary returned by [compare_watchlists]: status ['success']
    with its fields, or status ['error'] with a message and a list. *)
Inductive result :=
| success (common : list MovieInfo) (user1_total user2_total common_total : nat)
          (stats : statistics)
| error (message : string) (common : list MovieInfo).

(** [result['common_movies']]. *)
Definition result_common_movies (r : result) : list MovieInfo :=
  match r with
  | success c _ _ _ _ => c
  | error _ c => c
  end.

(** [set(movie.title for movie in l)]. *)
Definition title_set (l : list MovieInfo) : gset string :=
  list_to_set (map title l).

Section Scraper.

Variable w : world.

(** [self.session.get(url, ...)]. *)
Definition session_get (url : string) : M (Z * node) :=
  fun s =>
    let s' := {| common_movies := common_movies s;
                 error_message := error_message s;
                 sent := S (sent s); db_calls := db_calls s;
                 trace := trace s ++ [EvGet url] |} in
    match http w (sent s) url with
    | Response c d => (Return (c, d), s')
    | ConnectionFailed => (Raise RequestException, s')
    end.

(** A method call on [self.db]. *)
Definition db_do (c : db_call) : M bool :=
  fun s =>
    let s' := {| common_movies := common_movies s;
                 error_message := error_message s;
                 sent := sent s; db_calls := S (db_calls s);
                 trace := trace s ++ [EvDb c] |} in
    match db w (db_calls s) c with
    | DbReturn b => (Return b, s')
    | DbRaise => (Raise DatabaseError, s')
    end.

(** [_check_user_profile]. *)
Definition _check_user_profile (username : string) : M unit :=
  let profile_url := "https://letterboxd.com/" +:+ username +:+ "/" in
  response <- session_get profile_url ;;
  if decide (fst response = 200%Z) then ret tt
  else raise (ValueError ("User profile not found: " +:+ username)).

(** [_fetch_watchlist_page]. *)
Definition _fetch_watchlist_page (url : string) : M node :=
  response <- session_get url ;;
  if decide (fst response = 200%Z) then ret (snd response)
  else raise (ValueError ("Failed to fetch watchlist page: " +:+ url)).

(** One iteration of the loop over [range(last_page)], then the rest. *)
Fixpoint fetch_pages (username watchlist_url : string) (last_page : Z)
    (progress_callback : option callback) (pages : list Z)
    (user_watchlist : list MovieInfo) : M (list MovieInfo) :=
  match pages with
  | [] => ret user_watchlist
  | page_num :: rest =>
      match progress_callback with
      | Some f =>
          q <- lift (truediv (page_num + 1) last_page) ;;
          let progress := (q * 100)%Q in
          emit (EvProgress progress username) ;;;
          lift (f progress username)
      | None => ret tt
      end ;;;
      let page_url := watchlist_url +:+ "page/" +:+ pretty (page_num + 1)%Z +:+ "/" in
      page_soup <- _fetch_watchlist_page page_url ;;
      let page_movies := _parse_movie_page page_soup in
      sleep ;;;
      fetch_pages username watchlist_url last_page progress_callback rest
                  (user_watchlist ++ page_movies)
  end.

(** [_update_database]. *)
Definition _update_database (username username2 : string)
    (movies : list MovieInfo) : M unit :=
  found <- db_do (GetUser username) ;;
  (if found then ret tt else (db_do (AddUser username) ;;; ret tt)) ;;;
  (fix loop (l : list MovieInfo) : M unit :=
     match l with
     | [] => ret tt
     | movie :: l' =>
         db_do (AddUserMovie username username2 (title movie)) ;;; loop l'
     end) movies ;;;
  db_do (UpdateUserSyncTime username) ;;;
  ret tt.

(** The protected block of [get_user_watchlist]. *)
Definition get_user_watchlist_body (username username2 : string)
    (progress_callback : option callback) : M (list MovieInfo) :=
  _check_user_profile username ;;;
  let watchlist_url := "https://letterboxd.com/" +:+ username +:+ "/watchlist/" in
  initial_page <- _fetch_watchlist_page watchlist_url ;;
  last_page <- lift (last_page_of initial_page) ;;
  user_watchlist <-
    fetch_pages username watchlist_url last_page progress_callback
                (seqZ 0 last_page) [] ;;
  match user_watchlist with
  | [] => raise (ValueError ("No movies found for user: " +:+ username))
  | _ :: _ =>
      _update_database username username2 user_watchlist ;;;
      ret user_watchlist
  end.

(** [get_user_watchlist]: any exception of the block is recorded in
    [error_message] and the empty list is returned. *)
Definition get_user_watchlist (username username2 : string)
    (progress_callback : option callback) : M (list MovieInfo) :=
  try_except (get_user_watchlist_body username username2 progress_callback)
             (fun e => set_error_message username e ;;; ret []).

(** [_calculate_statistics]; it reads [self.common_movies]. *)
Definition _calculate_statistics (list1 list2 : list MovieInfo) : M statistics :=
  cm <- get_common_movies ;;
  q <- lift (truediv (Z.of_nat (length cm))
                     (Z.min (Z.of_nat (length list1)) (Z.of_nat (length list2)))) ;;
  ret {| overlap_percentage := (q * 100)%Q;
         total_unique_movies := size (title_set (list1 ++ list2)) |}.

(** The comparison proper: the part of [compare_watchlists] that runs
    once both watchlists are there (from the computation of
    [common_titles] to the returned dictionary). *)
Definition compare (username1 username2 : string)
    (user1_watchlist user2_watchlist : list MovieInfo) : M result :=
  let common_titles := title_set user1_watchlist ∩ title_set user2_watchlist in
  set_common_movies
    (filter (fun movie => title movie ∈ common_titles) user1_watchlist) ;;;
  saved <- get_common_movies ;;
  db_do (SaveCommonMovies username1 username2 saved) ;;;
  cm <- get_common_movies ;;
  stats <- _calculate_statistics user1_watchlist user2_watchlist ;;
  ret (success cm (length user1_watchlist) (length user2_watchlist)
               (length cm) stats).

(** [compare_watchlists]. *)
Definition compare_watchlists (username1 username2 : string)
    (progress_callback : option callback) : M result :=
  try_except
    (user1_watchlist <- get_user_watchlist username1 username2 progress_callback ;;
     match user1_watchlist with
     | [] => raise (ValueError ("Could not fetch watchlist for " +:+ username1))
     | _ :: _ => ret tt
     end ;;;
     user2_watchlist <- get_user_watchlist username2 username1 progress_callback ;;
     match user2_watchlist with
     | [] => raise (ValueError ("Could not fetch watchlist for " +:+ username2))
     | _ :: _ => ret tt
     end ;;;
     compare username1 username2 user1_watchlist user2_watchlist)
    (fun _ => ret (error "user_not_found" [])).

End Scraper.

(** ** Sample data *)

Definition poster (t : string) : node :=
  Tag "div" ["film-poster"] {[ "data-film-name" := t ]} [].

Definition item (p : node) : node := Tag "li" ["poster-container"] ∅ [p].

Definition anchor (label : string) : node :=
  Tag "a" [] ∅ [NavigableString label].

Definition page_of (titles : list string) (labels : list string) : node :=
  Tag "[document]" [] ∅
    [Tag "ul" ["poster-list"] ∅ (map (fun t => item (poster t)) titles);
     Tag "div" ["pagination"] ∅ (map anchor labels)].

Definition sample_world : world :=
  {| http := fun n url =>
       if decide (url = "https://letterboxd.com/alice/watchlist/page/1/")
       then Response 200 (page_of ["Inception"; "Arrival"] ["1"; "2"])
       else if decide (url = "https://letterboxd.com/alice/watchlist/page/2/")
       then Response 200 (page_of ["Dune"] ["1"; "2"])
       else if decide (url = "https://letterboxd.com/bob/watchlist/page/1/")
       then Response 200 (page_of ["Dune"; "Arrival"; "Whiplash"] [])
       else if decide (url = "https://letterboxd.com/alice/watchlist/")
       then Response 200 (page_of ["Inception"; "Arrival"] ["1"; "2"; "…"])
       else if decide (url = "https://letterboxd.com/bob/watchlist/")
       then Response 200 (page_of ["Dune"; "Arrival"; "Whiplash"] [])
       else if decide (url = "https://letterboxd.com/alice/") then Response 200 (NavigableString "")
       else if decide (url = "https://letterboxd.com/bob/") then Response 200 (NavigableString "")
       else Response 404 (NavigableString "");
     db := fun _ _ => DbReturn true |}.

Definition silent : callback := fun _ _ => Return tt.

(** The watchlists of the specification's example. *)
Definition listA : list MovieInfo :=
  map MovieInfo_of_title ["Inception"; "Arrival"; "Dune"].
Definition listB : list MovieInfo :=
  map MovieInfo_of_title ["Dune"; "Arrival"; "Whiplash"].

(** The dictionary of the specification's example. *)
Definition sample_result : result :=
  success (map MovieInfo_of_title ["Arrival"; "Dune"]) 3 3 2
          {| overlap_percentage := (200 # 3)%Q; total_unique_movies := 4 |}.

(** A scraper that has already compared something else. *)
Definition used : state :=
  {| common_movies := [MovieInfo_of_title "Whiplash"];
     error_message := Some ("carol", RequestException);
     sent := 12; db_calls := 5; trace := [EvSleep] |}.

(** The state after [compare]: the list is stored in [common_movies] and
    one database call has been made. *)
Definition after_compare (username1 username2 : string)
    (cm : list MovieInfo) (s : state) : state :=
  {| common_movies := cm;
     error_message := error_message s;
     sent := sent s; db_calls := S (db_calls s);
     trace := trace s ++ [EvDb (SaveCommonMovies username1 username2 cm)] |}.

(** ** Vocabulary of the statements *)

(** The event of the comparison proper: saving the common movies. *)
Definition is_save (e : event) : bool :=
  match e with
  | EvDb (SaveCommonMovies _ _ _) => true
  | _ => false
  end.

(** [s'] comes after [s] by steps that leave the [common_movies] field
    alone and save no comparison. *)
Definition retrieval_steps (s s' : state) : Prop :=
  common_movies s' = common_movies s /\
  exists evs, trace s' = trace s ++ evs /\ Forall (fun e => is_save e = false) evs.

(** A block all of whose runs are such steps. *)
Definition keeps {A} (m : M A) : Prop :=
  forall s, retrieval_steps s (snd (m s)).

(** Retrieval fails: the protected block of [get_user_watchlist] raises. *)
Definition retrieval_fails (w : world) (username username2 : string)
    (cb : option callback) (s : state) : Prop :=
  exists e s', get_user_watchlist_body w username username2 cb s = (Raise e, s').

(** A world in which carol's profile does not exist. *)
Definition no_carol : world :=
  {| http := fun n url =>
       if decide (url = "https://letterboxd.com/carol/") then Response 404 (NavigableString "")
       else http sample_world n url;
     db := db sample_world |}.

(** A world in which dave's profile exists and his one watchlist page
    shows no poster. *)
Definition empty_dave : world :=
  {| http := fun n url =>
       if decide (url = "https://letterboxd.com/dave/") then Response 200 (NavigableString "")
       else if decide (url = "https://letterboxd.com/dave/watchlist/")
       then Response 200 (page_of [] [])
       else if decide (url = "https://letterboxd.com/dave/watchlist/page/1/")
       then Response 200 (page_of [] [])
       else Response 404 (NavigableString "");
     db := fun _ _ => DbReturn true |}.

(** [self.error_message = ...] on state [s]. *)
Definition with_error_message (username : string) (e : exn) (s : state) : state :=
  {| common_movies := common_movies s;
     error_message := Some (username, e);
     sent := sent s; db_calls := db_calls s; trace := trace s |}.

(** [page_index / last_page * 100]. *)
Definition percent (page_index last_page : Z) : Q :=
  (inject_Z page_index / inject_Z last_page * 100)%Q.

(** What the loop does for page [k] of [last_page]: report, fetch, wait. *)
Definition page_events (username watchlist_url : string) (last_page k : Z)
    : list event :=
  [EvProgress (percent k last_page) username;
   EvGet (watchlist_url +:+ "page/" +:+ pretty k +:+ "/");
   EvSleep].

(** In the run [tr], some call of the callback for [username] comes after
    the request for [page_url]. *)
Definition progress_after_fetch (tr : list event) (username page_url : string)
    : Prop :=
  exists p i j,
    tr !! i = Some (EvGet page_url) /\
    tr !! j = Some (EvProgress p username) /\
    (i < j)%nat.

(** The state after a request for [url]. *)
Definition after_get (url : string) (s : state) : state :=
  {| common_movies := common_movies s;
     error_message := error_message s;
     sent := S (sent s); db_calls := db_calls s;
     trace := trace s ++ [EvGet url] |}.

(** A first page whose pagination control has, next to the link "1", a
    link labelled with a superscript two. *)
Definition superscript_page : node := page_of ["Dune"] ["1"; "²"].

(** A world in which erin's watchlist is that page. *)
Definition superscript_world : world :=
  {| http := fun n url =>
       if decide (url = "https://letterboxd.com/erin/") then Response 200 (NavigableString "")
       else if decide (url = "https://letterboxd.com/erin/watchlist/")
       then Response 200 superscript_page
       else if decide (url = "https://letterboxd.com/erin/watchlist/page/1/")
       then Response 200 superscript_page
       else http sample_world n url;
     db := db sample_world |}.

(** A first page without pagination control. *)
Definition single_page : node :=
  Tag "[document]" [] ∅ [Tag "ul" ["poster-list"] ∅ [item (poster "Dune")]].

(** A record as the extractor makes them: a title that is not empty and
    no genres. *)
Definition extracted (m : MovieInfo) : Prop :=
  title m <> "" /\ genres m = [].

(** The [alt] text of the first image of class [image] below a poster. *)
Definition image_alt (film_poster : node) : option string :=
  match find "img" "image" film_poster with
  | Some img => node_attrs img !! "alt"
  | None => None
  end.

(** ** Layouts of one content *)

(** The five structural markers the extractor looks for. *)
Definition markers : list (string * string) :=
  [("ul", "poster-list"); ("ul", "films-grid"); ("div", "films-grid");
   ("div", "film-poster"); ("li", "poster-container")].

Definition marked (n : node) : bool :=
  existsb (fun m => matches (fst m) (snd m) n) markers.

(** The nodes of a forest, in document order. *)
Definition below (cs : list node) : list node :=
  flat_map (fun c => c :: descendants c) cs.

(** Surrounding markup: neither the node nor anything below it carries a
    marker. *)
Definition plain (n : node) : bool :=
  forallb (fun d => negb (marked d)) (n :: descendants n).

(** A poster element: a [div] of class [film-poster] that is not also a
    grid block and has no marker below it. *)
Definition is_poster (p : node) : bool :=
  matches "div" "film-poster" p && negb (matches "div" "films-grid" p)
  && forallb (fun d => negb (marked d)) (descendants p).

(** The ways a page lays out its posters: in the primary grid, in one of
    the two fallback grids, or without any grid. *)
Inductive layout := PrimaryGrid | FallbackList | FallbackBlock | FlatScan.

Definition grid (l : layout) (posters : list node) : list node :=
  match l with
  | PrimaryGrid => [Tag "ul" ["poster-list"] ∅ (map item posters)]
  | FallbackList => [Tag "ul" ["films-grid"] ∅ (map item posters)]
  | FallbackBlock => [Tag "div" ["films-grid"] ∅ (map item posters)]
  | FlatScan => posters
  end.

(** The document that presents [posters] in layout [l] between the
    markup [before] and [after]. *)
Definition render (l : layout) (before after posters : list node) : node :=
  Tag "[document]" [] ∅ (before ++ grid l posters ++ after).

(** The document whose primary grid holds [posters] directly, without
    item elements around them. *)
Definition bare_grid (posters : list node) : node :=
  Tag "[document]" [] ∅ [Tag "ul" ["poster-list"] ∅ posters].

(** Posters and surrounding markup for the examples. *)
Definition sample_posters : list node :=
  [poster "Dune";
   Tag "div" ["film-poster"; "really-lazy-load"] ∅
     [Tag "img" ["image"] {[ "alt" := "Arrival" ]} []];
   Tag "div" ["film-poster"] ∅ [NavigableString "no title"]].

Definition sample_header : list node :=
  [Tag "h1" ["title"] ∅ [NavigableString "Watchlist"]].

Definition sample_footer : list node :=
  [Tag "div" ["pagination"] ∅ [anchor "1"; anchor "2"]].

(** ** Further vocabulary *)

(** [MovieInfo.__str__]. *)
Definition MovieInfo_str (m : MovieInfo) : string :=
  match genres m with
  | [] => title m
  | _ :: _ => title m +:+ " [" +:+ String.concat ", " (genres m) +:+ "]"
  end.

(** [get_error_message]. *)
Definition get_error_message : M (option (string * exn)) :=
  fun s => (Return (error_message s), s).

(** Watchlists that repeat the title [t]. *)
Definition twice (t : string) : list MovieInfo :=
  [MovieInfo_of_title t; MovieInfo_of_title t].

(** The three kinds of address the scraper requests. *)
Definition profile_url (username : string) : string :=
  "https://letterboxd.com/" +:+ username +:+ "/".

Definition watchlist_url (username : string) : string :=
  "https://letterboxd.com/" +:+ username +:+ "/watchlist/".

Definition page_url (username : string) (k : Z) : string :=
  watchlist_url username +:+ "page/" +:+ pretty k +:+ "/".

(** The part of [get_user_watchlist] that talks to the site: the profile
    check, the first page, the page count and the loop over the pages. *)
Definition retrieve_pages (w : world) (username : string)
    (progress_callback : option callback) : M (list MovieInfo) :=
  _check_user_profile w username ;;;
  initial_page <- _fetch_watchlist_page w (watchlist_url username) ;;
  last_page <- lift (last_page_of initial_page) ;;
  fetch_pages w username (watchlist_url username) last_page
              progress_callback (seqZ 0 last_page) [].

(** Every run of [m] relates the state before to the state after by [R]. *)
Definition respects (R : state -> state -> Prop) {A} (m : M A) : Prop :=
  forall s, R s (snd (m s)).

Definition is_db (e : event) : bool :=
  match e with
  | EvDb _ => true
  | _ => false
  end.

(** Steps that leave the scraper's fields and the database alone. *)
Definition quiet (s s' : state) : Prop :=
  common_movies s' = common_movies s
  /\ error_message s' = error_message s
  /\ db_calls s' = db_calls s
  /\ exists evs, trace s' = trace s ++ evs /\ Forall (fun e => is_db e = false) evs.

(** Steps that leave the scraper's two fields alone. *)
Definition same_fields (s s' : state) : Prop :=
  common_movies s' = common_movies s /\ error_message s' = error_message s.

(** The first step of an iteration of the page loop: the call of the
    callback, when there is one. *)
Definition report_progress (progress_callback : option callback)
    (username : string) (last_page page_num : Z) : M unit :=
  match progress_callback with
  | Some f =>
      q <- lift (truediv (page_num + 1) last_page) ;;
      let progress := (q * 100)%Q in
      emit (EvProgress progress username) ;;;
      lift (f progress username)
  | None => ret tt
  end.

(** A world in which alice's second page cannot be fetched. *)
Definition broken_page : world :=
  {| http := fun n url =>
       if decide (url = "https://letterboxd.com/alice/watchlist/page/2/")
       then Response 503 (NavigableString "")
       else http sample_world n url;
     db := db sample_world |}.

(** A world in which erin's first page has a pagination control whose
    only number is 0. *)
Definition zero_pages : world :=
  {| http := fun n url =>
       if decide (url = "https://letterboxd.com/erin/") then Response 200 (NavigableString "")
       else if decide (url = "https://letterboxd.com/erin/watchlist/")
       then Response 200 (page_of ["Dune"] ["0"])
       else Response 200 (page_of ["Dune"] ["0"]);
     db := fun _ _ => DbReturn true |}.

(** A world in which the comparison cannot be saved. *)
Definition failing_save : world :=
  {| http := http sample_world;
     db := fun _ c =>
       match c with
       | SaveCommonMovies _ _ _ => DbRaise
       | _ => DbReturn true
       end |}.

(** The loop of [_update_database] over the movies. *)
Definition add_user_movies (w : world) (username username2 : string)
    : list MovieInfo -> M unit :=
  fix loop (l : list MovieInfo) : M unit :=
    match l with
    | [] => ret tt
    | movie :: l' =>
        db_do w (AddUserMovie username username2 (title movie)) ;;; loop l'
    end.

(** The calls of [_update_database], given the answer of [get_user]. *)
Definition update_database_calls (found : bool) (username username2 : string)
    (movies : list MovieInfo) : list db_call :=
  GetUser username
  :: (if found then [] else [AddUser username])
  ++ map (fun movie => AddUserMovie username username2 (title movie)) movies
  ++ [UpdateUserSyncTime username].

(** A first page that starts with a pagination control whose links are
    labelled with the decimal numerals of [ns]. *)
Definition numbered_page (ns : list N) (others : list node) : node :=
  Tag "[document]" [] ∅
    (Tag "div" ["pagination"] ∅ (map (fun n => anchor (pretty n)) ns) :: others).

(** [ds] are the digits that [int] and [isdigit] see in the numeral [s]:
    an ASCII string, every character of which is a decimal digit. *)
Definition reads (s : string) (ds : list Z) : Prop :=
  leading_decimals (code_points s) = ds
  /\ length (code_points s) = length ds
  /\ String.length s = length ds
  /\ forallb is_digit (code_points s) = true.

(** A page whose grid is empty while a poster stands outside it. *)
Definition empty_grid_page : node :=
  Tag "[document]" [] ∅ [Tag "ul" ["poster-list"] ∅ []; poster "Dune"].

(** A record with genres. *)
Definition with_genres : MovieInfo :=
  {| title := "Dune"; genres := ["Sci-Fi"; "Adventure"] |}.

(** * The persistence collaborator ([src/database.py])

    The SQLite file is the content of its four tables together with the
    counters of [sqlite_sequence] (every [id] is [AUTOINCREMENT]).
    [CURRENT_TIMESTAMP] is the argument [now]. A [SELECT] fixes the rows
    it returns, not their order: the queries list them in the order of
    their [FROM] clause and no statement below depends on it. Each method
    works on a connection of its own and commits before it returns; what
    a connection has not committed when it is closed is undone.
    [DatabaseManager] gives what the methods do to the tables of a file
    that no other connection holds locked; [DatabaseFile], after it, adds
    the write lock that a connection left open keeps. *)

Module DatabaseManager.

Record user_row := mkUser {
  u_id : Z;
  u_username : string;
  u_last_sync : option Z
}.

Record movie_row := mkMovie {
  m_id : Z;
  m_title : string
}.

Record user_movie_row := mkUserMovie {
  um_id : Z;
  um_user_id : Z;
  um_user_id2 : Z;
  um_movie_id : Z;
  um_added_date : Z
}.

Record common_movie_row := mkCommonMovie {
  cm_id : Z;
  cm_user1_id : Z;
  cm_user2_id : Z;
  cm_movie_id : Z;
  cm_movie_name : string;
  cm_comparison_date : Z
}.

Record database := mkDatabase {
  users : list user_row;
  movies : list movie_row;
  user_movies : list user_movie_row;
  common_movies : list common_movie_row;
  users_seq : Z;
  movies_seq : Z;
  user_movies_seq : Z;
  common_movies_seq : Z
}.

(** The errors of the [sqlite3] module that the methods can meet. *)
Inductive sqlite_error :=
| IntegrityError
| OperationalError.

Inductive answer (A : Type) :=
| Ok (a : A)
| Error (e : sqlite_error).
Arguments Ok {A} a.
Arguments Error {A} e.

(** [create_tables] on a new file. *)
Definition create_tables : database :=
  {| users := []; movies := []; user_movies := []; common_movies := [];
     users_seq := 0; movies_seq := 0; user_movies_seq := 0;
     common_movies_seq := 0 |}.

(** [get_user]: the row of that username, or [None]. *)
Definition get_user (username : string) (d : database) : option user_row :=
  head (filter (fun r => u_username r = username) (users d)).

(** [add_user]: [username] is [UNIQUE], so a second insert raises and
    the tables stay as they are. The method then returns without closing
    its connection: [DatabaseFile.add_user] has the lock this leaves on
    the file. *)
Definition add_user (username : string) (d : database)
    : answer user_row * database :=
  if decide (username ∈ map u_username (users d))
  then (Error IntegrityError, d)
  else
    let r := {| u_id := users_seq d + 1; u_username := username;
                u_last_sync := None |} in
    (Ok r,
     {| users := users d ++ [r]; movies := movies d;
        user_movies := user_movies d; common_movies := common_movies d;
        users_seq := users_seq d + 1; movies_seq := movies_seq d;
        user_movies_seq := user_movies_seq d;
        common_movies_seq := common_movies_seq d |}).

(** [add_movie]: the existing row of that title, or a new one. The insert
    runs on the method's own connection; [blocked] says that another
    connection holds an open write transaction, in which case SQLite
    refuses the insert ("database is locked"). *)
Definition add_movie (blocked : bool) (movie_title : string) (d : database)
    : answer movie_row * database :=
  match head (filter (fun r => m_title r = movie_title) (movies d)) with
  | Some movie => (Ok movie, d)
  | None =>
      if blocked then (Error OperationalError, d)
      else
        let r := {| m_id := movies_seq d + 1; m_title := movie_title |} in
        (Ok r,
         {| users := users d; movies := movies d ++ [r];
            user_movies := user_movies d; common_movies := common_movies d;
            users_seq := users_seq d; movies_seq := movies_seq d + 1;
            user_movies_seq := user_movies_seq d;
            common_movies_seq := common_movies_seq d |})
  end.

(** [user = self.get_user(name)], then [self.add_user(name)] when there
    is none. *)
Definition get_or_add_user (username : string) (d : database)
    : answer user_row * database :=
  match get_user username d with
  | Some user => (Ok user, d)
  | None => add_user username d
  end.

(** [add_user_movie]. Its own connection writes only at the end, after
    the nested calls have committed. *)
Definition add_user_movie (now : Z) (username username2 movie_title : string)
    (d : database) : answer unit * database :=
  match get_or_add_user username d with
  | (Error e, d1) => (Error e, d1)
  | (Ok user, d1) =>
      match get_or_add_user username2 d1 with
      | (Error e, d2) => (Error e, d2)
      | (Ok user2, d2) =>
          match add_movie false movie_title d2 with
          | (Error e, d3) => (Error e, d3)
          | (Ok movie, d3) =>
              let r := {| um_id := user_movies_seq d3 + 1;
                          um_user_id := u_id user; um_user_id2 := u_id user2;
                          um_movie_id := m_id movie; um_added_date := now |} in
              (Ok tt,
               {| users := users d3; movies := movies d3;
                  user_movies := user_movies d3 ++ [r];
                  common_movies := common_movies d3;
                  users_seq := users_seq d3; movies_seq := movies_seq d3;
                  user_movies_seq := user_movies_seq d3 + 1;
                  common_movies_seq := common_movies_seq d3 |})
          end
      end
  end.

(** [get_user_movies]: the join of [movies], [user_movies] and [users]. *)
Definition get_user_movies (username : string) (d : database)
    : list (Z * string) :=
  m ← movies d;
  um ← user_movies d;
  u ← users d;
  if decide (um_movie_id um = m_id m /\ um_user_id um = u_id u
             /\ u_username u = username)
  then [(m_id m, m_title m)] else [].

(** The [WHERE] clause shared by the delete of [save_common_movies] and
    the query of [get_common_movies_from_db]. *)
Definition of_pair (id1 id2 : Z) (r : common_movie_row) : Prop :=
  (cm_user1_id r = id1 /\ cm_user2_id r = id2)
  \/ (cm_user1_id r = id2 /\ cm_user2_id r = id1).

#[global] Instance of_pair_dec id1 id2 r : Decision (of_pair id1 id2 r).
Proof. unfold of_pair. apply _. Defined.

(** The loop of [save_common_movies]: [add_movie] on its own connection,
    then the insert on the connection of [save_common_movies], whose
    transaction is open since the delete. *)
Fixpoint insert_common_movies (blocked : bool) (now : Z) (id1 id2 : Z)
    (l : list MovieInfo) (d : database) : answer unit * database :=
  match l with
  | [] => (Ok tt, d)
  | movie :: l' =>
      match add_movie blocked (title movie) d with
      | (Error e, d1) => (Error e, d1)
      | (Ok movie_obj, d1) =>
          let r := {| cm_id := common_movies_seq d1 + 1;
                      cm_user1_id := id1; cm_user2_id := id2;
                      cm_movie_id := m_id movie_obj;
                      cm_movie_name := title movie;
                      cm_comparison_date := now |} in
          insert_common_movies blocked now id1 id2 l'
            {| users := users d1; movies := movies d1;
               user_movies := user_movies d1;
               common_movies := common_movies d1 ++ [r];
               users_seq := users_seq d1; movies_seq := movies_seq d1;
               user_movies_seq := user_movies_seq d1;
               common_movies_seq := common_movies_seq d1 + 1 |}
      end
  end.

(** Closing the connection of [save_common_movies] without a commit: its
    writes to [common_movies] are undone, what the nested calls committed
    stays. *)
Definition rollback_common_movies (before d : database) : database :=
  {| users := users d; movies := movies d; user_movies := user_movies d;
     common_movies := common_movies before;
     users_seq := users_seq d; movies_seq := movies_seq d;
     user_movies_seq := user_movies_seq d;
     common_movies_seq := common_movies_seq before |}.

(** [save_common_movies]. [blocked] is how the engine treats the insert
    of a nested [add_movie] while this method's transaction is open
    (SQLite blocks it). *)
Definition save_common_movies (blocked : bool) (now : Z)
    (username1 username2 : string) (l : list MovieInfo) (d : database)
    : answer bool * database :=
  match get_user username1 d, get_user username2 d with
  | Some user1, Some user2 =>
      let deleted :=
        {| users := users d; movies := movies d; user_movies := user_movies d;
           common_movies :=
             filter (fun r => ~ of_pair (u_id user1) (u_id user2) r)
                    (common_movies d);
           users_seq := users_seq d; movies_seq := movies_seq d;
           user_movies_seq := user_movies_seq d;
           common_movies_seq := common_movies_seq d |} in
      match insert_common_movies blocked now (u_id user1) (u_id user2) l deleted with
      | (Ok _, d') => (Ok true, d')
      | (Error e, d') => (Error e, rollback_common_movies d d')
      end
  | _, _ => (Ok false, d)
  end.

(** [get_common_movies_from_db]. *)
Definition get_common_movies_from_db (username1 username2 : string)
    (d : database) : list (Z * string) :=
  match get_user username1 d, get_user username2 d with
  | Some user1, Some user2 =>
      m ← movies d;
      cm ← common_movies d;
      if decide (cm_movie_id cm = m_id m /\ of_pair (u_id user1) (u_id user2) cm)
      then [(m_id m, m_title m)] else []
  | _, _ => []
  end.

(** [update_user_sync_time]. *)
Definition update_user_sync_time (now : Z) (username : string) (d : database)
    : database :=
  {| users :=
       map (fun r => if decide (u_username r = username)
                     then {| u_id := u_id r; u_username := u_username r;
                             u_last_sync := Some now |}
                     else r) (users d);
     movies := movies d; user_movies := user_movies d;
     common_movies := common_movies d;
     users_seq := users_seq d; movies_seq := movies_seq d;
     user_movies_seq := user_movies_seq d;
     common_movies_seq := common_movies_seq d |}.

End DatabaseManager.

(** ** The write lock

    [add_user] and [add_movie] close their connection on the last line
    only, without [finally]: when their insert raises, the connection
    stays open until the interpreter collects it. The connection of an
    [add_user] refused for its username has begun a transaction and so
    keeps the write lock of the file; while it does, every write of
    another connection waits for the timeout and raises, and reads go
    through. A connection whose write was refused for the lock holds
    nothing. The file is therefore the tables together with this lock;
    [DatabaseManager] above says what a method does to the tables when
    no such lock is held. *)

Module DatabaseFile.

Record file := mkFile {
  tables : DatabaseManager.database;
  write_locked : bool
}.

Definition unlocked (d : DatabaseManager.database) : file :=
  {| tables := d; write_locked := false |}.

Definition locked (d : DatabaseManager.database) : file :=
  {| tables := d; write_locked := true |}.

(** The interpreter collects the connections that were left open: the
    transaction of the one that holds the lock is rolled back (it holds
    no change) and the lock is released. *)
Definition collect (f : file) : file := unlocked (tables f).

(** [get_user]. *)
Definition get_user (username : string) (f : file)
    : option DatabaseManager.user_row :=
  DatabaseManager.get_user username (tables f).

(** [add_user]: on a locked file the insert raises for the lock; else a
    username that is there raises for [UNIQUE], and the connection that
    is left open locks the file. *)
Definition add_user (username : string) (f : file)
    : DatabaseManager.answer DatabaseManager.user_row * file :=
  if write_locked f
  then (DatabaseManager.Error DatabaseManager.OperationalError, f)
  else
    match DatabaseManager.add_user username (tables f) with
    | (DatabaseManager.Ok r, d) => (DatabaseManager.Ok r, unlocked d)
    | (DatabaseManager.Error e, d) => (DatabaseManager.Error e, locked d)
    end.

(** [add_movie]: the insert is refused when the file is locked, be it by
    a connection left open or ([blocked]) by the caller's transaction. *)
Definition add_movie (blocked : bool) (movie_title : string) (f : file)
    : DatabaseManager.answer DatabaseManager.movie_row * file :=
  match DatabaseManager.add_movie (blocked || write_locked f) movie_title
          (tables f) with
  | (o, d) => (o, {| tables := d; write_locked := write_locked f |})
  end.

Definition get_or_add_user (username : string) (f : file)
    : DatabaseManager.answer DatabaseManager.user_row * file :=
  match get_user username f with
  | Some user => (DatabaseManager.Ok user, f)
  | None => add_user username f
  end.

(** [add_user_movie]: the nested calls, then the insert of the method's
    own connection, which [finally] closes. *)
Definition add_user_movie (now : Z) (username username2 movie_title : string)
    (f : file) : DatabaseManager.answer unit * file :=
  match get_or_add_user username f with
  | (DatabaseManager.Error e, f1) => (DatabaseManager.Error e, f1)
  | (DatabaseManager.Ok user, f1) =>
      match get_or_add_user username2 f1 with
      | (DatabaseManager.Error e, f2) => (DatabaseManager.Error e, f2)
      | (DatabaseManager.Ok user2, f2) =>
          match add_movie false movie_title f2 with
          | (DatabaseManager.Error e, f3) => (DatabaseManager.Error e, f3)
          | (DatabaseManager.Ok movie, f3) =>
              if write_locked f3
              then (DatabaseManager.Error DatabaseManager.OperationalError, f3)
              else
                let d3 := tables f3 in
                let r :=
                  {| DatabaseManager.um_id :=
                       DatabaseManager.user_movies_seq d3 + 1;
                     DatabaseManager.um_user_id := DatabaseManager.u_id user;
                     DatabaseManager.um_user_id2 := DatabaseManager.u_id user2;
                     DatabaseManager.um_movie_id := DatabaseManager.m_id movie;
                     DatabaseManager.um_added_date := now |} in
                (DatabaseManager.Ok tt,
                 unlocked
                   {| DatabaseManager.users := DatabaseManager.users d3;
                      DatabaseManager.movies := DatabaseManager.movies d3;
                      DatabaseManager.user_movies :=
                        DatabaseManager.user_movies d3 ++ [r];
                      DatabaseManager.common_movies :=
                        DatabaseManager.common_movies d3;
                      DatabaseManager.users_seq := DatabaseManager.users_seq d3;
                      DatabaseManager.movies_seq := DatabaseManager.movies_seq d3;
                      DatabaseManager.user_movies_seq :=
                        DatabaseManager.user_movies_seq d3 + 1;
                      DatabaseManager.common_movies_seq :=
                        DatabaseManager.common_movies_seq d3 |})
          end
      end
  end.

(** [get_user_movies]. *)
Definition get_user_movies (username : string) (f : file) : list (Z * string) :=
  DatabaseManager.get_user_movies username (tables f).

(** [save_common_movies]: without both users nothing is written; else
    the delete needs the lock, and once it has it the method goes on as
    [DatabaseManager.save_common_movies] says. [finally] closes the
    connection. *)
Definition save_common_movies (blocked : bool) (now : Z)
    (username1 username2 : string) (l : list MovieInfo) (f : file)
    : DatabaseManager.answer bool * file :=
  match get_user username1 f, get_user username2 f with
  | Some _, Some _ =>
      if write_locked f
      then (DatabaseManager.Error DatabaseManager.OperationalError, f)
      else
        match DatabaseManager.save_common_movies blocked now username1
                username2 l (tables f) with
        | (o, d) => (o, unlocked d)
        end
  | _, _ => (DatabaseManager.Ok false, f)
  end.

(** [get_common_movies_from_db]. *)
Definition get_common_movies_from_db (username1 username2 : string) (f : file)
    : list (Z * string) :=
  DatabaseManager.get_common_movies_from_db username1 username2 (tables f).

(** [update_user_sync_time]: the update needs the lock; [finally] closes
    the connection. *)
Definition update_user_sync_time (now : Z) (username : string) (f : file)
    : DatabaseManager.answer unit * file :=
  if write_locked f
  then (DatabaseManager.Error DatabaseManager.OperationalError, f)
  else (DatabaseManager.Ok tt,
        unlocked (DatabaseManager.update_user_sync_time now username (tables f))).

End DatabaseFile.

(** ** Vocabulary for the database *)

(** Usernames and user ids are unique, and no id exceeds the counter. *)
Definition users_consistent (d : DatabaseManager.database) : Prop :=
  NoDup (map DatabaseManager.u_username (DatabaseManager.users d))
  /\ NoDup (map DatabaseManager.u_id (DatabaseManager.users d))
  /\ Forall (fun r => (DatabaseManager.u_id r <= DatabaseManager.users_seq d)%Z)
            (DatabaseManager.users d).

(** Movie titles and movie ids are unique, and no id exceeds the counter. *)
Definition movies_consistent (d : DatabaseManager.database) : Prop :=
  NoDup (map DatabaseManager.m_title (DatabaseManager.movies d))
  /\ NoDup (map DatabaseManager.m_id (DatabaseManager.movies d))
  /\ Forall (fun r => (DatabaseManager.m_id r <= DatabaseManager.movies_seq d)%Z)
            (DatabaseManager.movies d).

Definition consistent (d : DatabaseManager.database) : Prop :=
  users_consistent d /\ movies_consistent d.

(** The method behind each call of the scraper on [self.db], and what the
    scraper gets back. *)
Definition run_db_call (blocked : bool) (now : Z) (c : db_call)
    (d : DatabaseManager.database) : db_outcome * DatabaseManager.database :=
  match c with
  | GetUser u =>
      (DbReturn (bool_decide (is_Some (DatabaseManager.get_user u d))), d)
  | AddUser u =>
      match DatabaseManager.add_user u d with
      | (DatabaseManager.Ok _, d') => (DbReturn true, d')
      | (DatabaseManager.Error _, d') => (DbRaise, d')
      end
  | AddUserMovie u u2 t =>
      match DatabaseManager.add_user_movie now u u2 t d with
      | (DatabaseManager.Ok _, d') => (DbReturn true, d')
      | (DatabaseManager.Error _, d') => (DbRaise, d')
      end
  | UpdateUserSyncTime u =>
      (DbReturn true, DatabaseManager.update_user_sync_time now u d)
  | SaveCommonMovies u1 u2 l =>
      match DatabaseManager.save_common_movies blocked now u1 u2 l d with
      | (DatabaseManager.Ok b, d') => (DbReturn b, d')
      | (DatabaseManager.Error _, d') => (DbRaise, d')
      end
  end.

(** A sequence of calls, the [n]-th at time [clock n]: the database after
    them, or [None] when one of them raises. *)
Fixpoint run_db_calls (blocked : bool) (clock : nat -> Z) (n : nat)
    (calls : list db_call) (d : DatabaseManager.database)
    : option DatabaseManager.database :=
  match calls with
  | [] => Some d
  | c :: calls' =>
      match run_db_call blocked (clock n) c d with
      | (DbReturn _, d') => run_db_calls blocked clock (S n) calls' d'
      | (DbRaise, _) => None
      end
  end.

(** From [d] to [d'] no user and no movie disappears and no query on a
    user's movies loses a row. *)
Definition grows (d d' : DatabaseManager.database) : Prop :=
  (forall un, is_Some (DatabaseManager.get_user un d) ->
              is_Some (DatabaseManager.get_user un d'))
  /\ (forall t, t ∈ map DatabaseManager.m_title (DatabaseManager.movies d) ->
                t ∈ map DatabaseManager.m_title (DatabaseManager.movies d'))
  /\ (forall un row, row ∈ DatabaseManager.get_user_movies un d ->
                     row ∈ DatabaseManager.get_user_movies un d').

(** The titles of the rows of a query. *)
Definition row_titles (rows : list (Z * string)) : list string := map snd rows.

(** A database with two users and one movie, for the examples. *)
Definition sample_db : DatabaseManager.database :=
  snd (DatabaseManager.add_user_movie 100 "alice" "bob" "Dune"
         DatabaseManager.create_tables).

(** * Theorems *)

(** ** The comparison proper *)

(** [filter] by membership in the intersection of the title sets is
    [filter] by membership in the titles of the second list. *)
Lemma filter_common_titles (A B : list MovieInfo) :
  filter (fun movie => title movie ∈ title_set A ∩ title_set B) A
  = filter (fun movie => title movie ∈ map title B) A.
Proof.
  assert (Hin : forall m, m ∈ A ->
            (title m ∈ title_set A ∩ title_set B <-> title m ∈ map title B)).
  { intros m Hm. unfold title_set.
    rewrite elem_of_intersection, !elem_of_list_to_set.
    split; [tauto|]. intros HB. split; [|done].
    apply list_elem_of_fmap. eauto. }
  revert Hin. generalize (title_set A ∩ title_set B) as S.
  intros S. induction A as [|a A IH]; intros Hin; [done|].
  rewrite !filter_cons.
  rewrite IH by (intros m Hm; apply Hin; by right).
  assert (Ha : title a ∈ S <-> title a ∈ map title B) by (apply Hin; by left).
  destruct (decide (title a ∈ S)), (decide (title a ∈ map title B)); tauto || done.
Qed.

(** What one run of [compare] does, case by case. *)
Lemma compare_run w u1 u2 A B s :
  let cm := filter (fun movie => title movie ∈ map title B) A in
  let s1 := after_compare u1 u2 cm s in
  compare w u1 u2 A B s =
  match db w (db_calls s) (SaveCommonMovies u1 u2 cm) with
  | DbRaise => (Raise DatabaseError, s1)
  | DbReturn _ =>
      match truediv (Z.of_nat (length cm))
                    (Z.min (Z.of_nat (length A)) (Z.of_nat (length B))) with
      | Raise e => (Raise e, s1)
      | Return q =>
          (Return (success cm (length A) (length B) (length cm)
                     {| overlap_percentage := (q * 100)%Q;
                        total_unique_movies := size (title_set (A ++ B)) |}),
           s1)
      end
  end.
Proof.
  intros cm s1. unfold compare. rewrite filter_common_titles. fold cm.
  unfold bind, set_common_movies, get_common_movies, db_do,
    _calculate_statistics, lift, ret, bind; simpl.
  fold s1. unfold after_compare in s1.
  destruct (db w (db_calls s) (SaveCommonMovies u1 u2 cm)); [|done].
  simpl. destruct (truediv _ _); done.
Qed.

(** A successful run of [compare] returns this dictionary. *)
Lemma compare_Return w u1 u2 A B s r s' :
  compare w u1 u2 A B s = (Return r, s') ->
  let cm := filter (fun movie => title movie ∈ map title B) A in
  exists q,
    truediv (Z.of_nat (length cm))
            (Z.min (Z.of_nat (length A)) (Z.of_nat (length B))) = Return q /\
    r = success cm (length A) (length B) (length cm)
          {| overlap_percentage := (q * 100)%Q;
             total_unique_movies := size (title_set (A ++ B)) |} /\
    s' = after_compare u1 u2 cm s.
Proof.
  rewrite compare_run. intros H cm. fold cm in H.
  destruct (db w _ _); [|discriminate].
  destruct (truediv _ _) as [q|e]; [|discriminate].
  exists q. by simplify_eq.
Qed.

(** C1: the [common_movies] of a successful [compare] on watchlists [A]
    and [B] is exactly [A] filtered, in order and with duplicates kept, by
    "the title occurs in [B]"; it is a subsequence of [A], and each of its
    titles occurs in both lists. *)
Theorem compare_common_movies w u1 u2 A B s r s' :
  compare w u1 u2 A B s = (Return r, s') ->
  result_common_movies r = filter (fun m => title m ∈ map title B) A
  /\ sublist (result_common_movies r) A
  /\ forall m, m ∈ result_common_movies r ->
       title m ∈ map title A /\ title m ∈ map title B.
Proof.
  intros H. apply compare_Return in H as (q & _ & -> & _). simpl.
  split; [done|]. split; [apply sublist_filter|].
  intros m [HB HA]%list_elem_of_filter. split; [|done].
  apply list_elem_of_fmap. eauto.
Qed.

Lemma compare_common_movies_witness :
  result_common_movies sample_result
    = filter (fun m => title m ∈ map title listB) listA
  /\ sublist (result_common_movies sample_result) listA
  /\ forall m, m ∈ result_common_movies sample_result ->
       title m ∈ map title listA /\ title m ∈ map title listB.
Proof.
  apply (compare_common_movies sample_world "alice" "bob" listA listB init
           sample_result
           (snd (compare sample_world "alice" "bob" listA listB init))).
  vm_compute. reflexivity.
Defined.

(** C3: on non-empty watchlists, when the database call goes through,
    [compare] returns the success dictionary whose [overlap_percentage]
    is [common_total / min(user1_total, user2_total) * 100] and whose
    [total_unique_movies] is the size of the union of the two title
    sets. *)
Theorem compare_statistics w u1 u2 A B s found :
  A <> [] -> B <> [] ->
  db w (db_calls s)
     (SaveCommonMovies u1 u2 (filter (fun m => title m ∈ map title B) A))
    = DbReturn found ->
  exists common user1_total user2_total common_total stats s',
    compare w u1 u2 A B s
      = (Return (success common user1_total user2_total common_total stats), s')
    /\ user1_total = length A /\ user2_total = length B
    /\ overlap_percentage stats
       = (inject_Z (Z.of_nat common_total)
          / inject_Z (Z.of_nat user1_total `min` Z.of_nat user2_total) * 100)%Q
    /\ total_unique_movies stats = size (title_set A ∪ title_set B).
Proof.
  intros HA HB Hdb. rewrite compare_run, Hdb. unfold truediv.
  destruct (decide _) as [H0|_].
  { destruct A, B; simpl in *; try done; lia. }
  do 6 eexists. split; [reflexivity|]. simpl.
  repeat split. unfold title_set. by rewrite fmap_app, list_to_set_app_L.
Qed.

Lemma compare_statistics_witness :
  exists common user1_total user2_total common_total stats s',
    compare sample_world "alice" "bob" listA listB init
      = (Return (success common user1_total user2_total common_total stats), s')
    /\ user1_total = length listA /\ user2_total = length listB
    /\ overlap_percentage stats
       = (inject_Z (Z.of_nat common_total)
          / inject_Z (Z.of_nat user1_total `min` Z.of_nat user2_total) * 100)%Q
    /\ total_unique_movies stats = size (title_set listA ∪ title_set listB).
Proof.
  apply (compare_statistics sample_world "alice" "bob" listA listB init true).
  - discriminate.
  - discriminate.
  - reflexivity.
Defined.

(** The example of the specification: two common movies in the order of
    the first list, 2/3*100 and four distinct titles. *)
Example compare_example :
  fst (compare sample_world "alice" "bob" listA listB init) = Return sample_result.
Proof. vm_compute. reflexivity. Qed.

(** With an empty watchlist the division raises. *)
Lemma compare_empty w u1 u2 A B s found :
  A = [] \/ B = [] ->
  db w (db_calls s)
     (SaveCommonMovies u1 u2 (filter (fun m => title m ∈ map title B) A))
    = DbReturn found ->
  fst (compare w u1 u2 A B s) = Raise ZeroDivisionError.
Proof.
  intros HAB Hdb. rewrite compare_run, Hdb. unfold truediv.
  destruct (decide _) as [_|H0]; [done|].
  exfalso. apply H0. destruct HAB as [-> | ->]; simpl; lia.
Qed.

(** C8, as stated, fails: a comparison leaves its common movies in the
    scraper's [common_movies] field. *)
Lemma compare_stores_common_movies :
  common_movies (snd (compare sample_world "alice" "bob" listA listB init))
  <> common_movies init.
Proof. vm_compute. discriminate. Qed.

(** C8, amended: two successful runs of [compare] on the same pair of
    watchlists return equal dictionaries, whatever the scraper held
    before, for whom and in which environment they run; each run
    stores its common movies in the [common_movies] field. *)
Theorem compare_result_independent w1 w2 u1 u2 u1' u2' A B s1 s2 r1 r2 s1' s2' :
  compare w1 u1 u2 A B s1 = (Return r1, s1') ->
  compare w2 u1' u2' A B s2 = (Return r2, s2') ->
  r1 = r2
  /\ common_movies s1' = result_common_movies r1
  /\ common_movies s2' = result_common_movies r2.
Proof.
  intros (q1 & Hq1 & -> & ->)%compare_Return (q2 & Hq2 & -> & ->)%compare_Return.
  rewrite Hq1 in Hq2. by simplify_eq.
Qed.

Lemma compare_result_independent_witness :
  sample_result = sample_result
  /\ common_movies (snd (compare sample_world "alice" "bob" listA listB init))
     = result_common_movies sample_result
  /\ common_movies (snd (compare sample_world "bob" "alice" listA listB used))
     = result_common_movies sample_result.
Proof.
  apply (compare_result_independent sample_world sample_world
           "alice" "bob" "bob" "alice" listA listB init used).
  - vm_compute. reflexivity.
  - vm_compute. reflexivity.
Defined.

(** ** Retrieval leaves the comparison state alone *)

Lemma retrieval_steps_refl s : retrieval_steps s s.
Proof. split; [done|]. exists []. by rewrite app_nil_r. Qed.

Lemma retrieval_steps_trans s1 s2 s3 :
  retrieval_steps s1 s2 -> retrieval_steps s2 s3 -> retrieval_steps s1 s3.
Proof.
  intros [H1 (e1 & T1 & F1)] [H2 (e2 & T2 & F2)]. split; [congruence|].
  exists (e1 ++ e2). rewrite T2, T1, app_assoc. split; [done|].
  by apply Forall_app.
Qed.

Lemma keeps_ret {A} (a : A) : keeps (ret a).
Proof. intros s. apply retrieval_steps_refl. Qed.

Lemma keeps_raise {A} e : keeps (@raise A e).
Proof. intros s. apply retrieval_steps_refl. Qed.

Lemma keeps_lift {A} (o : outcome A) : keeps (lift o).
Proof. intros s. apply retrieval_steps_refl. Qed.

Lemma keeps_bind {A B} (m : M A) (k : A -> M B) :
  keeps m -> (forall a, keeps (k a)) -> keeps (bind m k).
Proof.
  intros Hm Hk s. unfold bind. specialize (Hm s).
  destruct (m s) as [[a|e] s1]; simpl in *; [|done].
  eapply retrieval_steps_trans; [done|apply Hk].
Qed.

Lemma keeps_try_except {A} (m : M A) (h : exn -> M A) :
  keeps m -> (forall e, keeps (h e)) -> keeps (try_except m h).
Proof.
  intros Hm Hh s. unfold try_except. specialize (Hm s).
  destruct (m s) as [[a|e] s1]; simpl in *; [done|].
  eapply retrieval_steps_trans; [done|apply Hh].
Qed.

Lemma keeps_emit e : is_save e = false -> keeps (emit e).
Proof. intros He s. split; [done|]. exists [e]. split; [done|]. by constructor. Qed.

Lemma keeps_set_error_message u e : keeps (set_error_message u e).
Proof. intros s. split; [done|]. exists []. by rewrite app_nil_r. Qed.

Lemma keeps_session_get w url : keeps (session_get w url).
Proof.
  intros s. unfold session_get.
  destruct (http w (sent s) url); (split; [done|]);
    exists [EvGet url]; (split; [done|]); by constructor.
Qed.

Lemma keeps_db_do w c : is_save (EvDb c) = false -> keeps (db_do w c).
Proof.
  intros Hc s. unfold db_do.
  destruct (db w (db_calls s) c); (split; [done|]);
    exists [EvDb c]; (split; [done|]); by constructor.
Qed.

Create HintDb keeps.
#[local] Hint Resolve keeps_ret keeps_raise keeps_lift keeps_emit
  keeps_set_error_message keeps_session_get keeps_db_do : keeps.

Ltac keeps_step :=
  first [ apply keeps_bind; [|intros ?]
        | apply keeps_try_except; [|intros ?]
        | solve [auto with keeps]
        | progress (case_match; simplify_eq/=)
        | case_decide ].

Lemma keeps_check_user_profile w u : keeps (_check_user_profile w u).
Proof. unfold _check_user_profile. repeat keeps_step. Qed.

Lemma keeps_fetch_watchlist_page w url : keeps (_fetch_watchlist_page w url).
Proof. unfold _fetch_watchlist_page. repeat keeps_step. Qed.

Lemma keeps_fetch_pages w u url N cb pages acc :
  keeps (fetch_pages w u url N cb pages acc).
Proof.
  revert acc. induction pages as [|pn pages IH]; intros acc; simpl.
  { apply keeps_ret. }
  apply keeps_bind.
  { destruct cb; [|apply keeps_ret]. unfold sleep. repeat keeps_step. }
  intros _. apply keeps_bind; [apply keeps_fetch_watchlist_page|].
  intros soup. apply keeps_bind; [by apply keeps_emit|]. intros _. apply IH.
Qed.

Lemma keeps_update_database w u u2 movies : keeps (_update_database w u u2 movies).
Proof.
  unfold _update_database.
  apply keeps_bind; [by apply keeps_db_do|]. intros found.
  apply keeps_bind.
  { destruct found; [apply keeps_ret|]. repeat keeps_step. }
  intros _. apply keeps_bind; [|intros _; repeat keeps_step].
  induction movies as [|m movies IH]; [apply keeps_ret|].
  apply keeps_bind; [by apply keeps_db_do|]. intros _. apply IH.
Qed.

Lemma keeps_get_user_watchlist_body w u u2 cb :
  keeps (get_user_watchlist_body w u u2 cb).
Proof.
  unfold get_user_watchlist_body.
  apply keeps_bind; [apply keeps_check_user_profile|]. intros _.
  apply keeps_bind; [apply keeps_fetch_watchlist_page|]. intros page.
  apply keeps_bind; [apply keeps_lift|]. intros N.
  apply keeps_bind; [apply keeps_fetch_pages|]. intros [|m wl].
  - apply keeps_raise.
  - apply keeps_bind; [apply keeps_update_database|]. intros _. apply keeps_ret.
Qed.

Lemma keeps_get_user_watchlist w u u2 cb : keeps (get_user_watchlist w u u2 cb).
Proof.
  unfold get_user_watchlist. apply keeps_try_except.
  - apply keeps_get_user_watchlist_body.
  - intros e. apply keeps_bind; [apply keeps_set_error_message|].
    intros _. apply keeps_ret.
Qed.

(** ** Outcomes of retrieval and of the whole comparison *)

(** The protected block never returns the empty list. *)
Lemma get_user_watchlist_body_nonempty w u u2 cb s s' l :
  get_user_watchlist_body w u u2 cb s = (Return l, s') -> l <> [].
Proof.
  unfold get_user_watchlist_body, bind, lift.
  destruct (_check_user_profile w u s) as [[[]|?] s1]; [|done].
  destruct (_fetch_watchlist_page w _ s1) as [[page|?] s2]; [|done].
  destruct (last_page_of page) as [N|?]; [|done].
  destruct (fetch_pages w _ _ _ _ _ _ s2) as [[[|m wl]|?] s3]; [done| |done].
  destruct (_update_database w _ _ _ s3) as [[[]|?] s4]; [|done].
  unfold ret. by intros [= <- _].
Qed.

(** [get_user_watchlist] always returns a list: the list of its block,
    or the empty list when the block raises. *)
Lemma get_user_watchlist_run w u u2 cb s :
  get_user_watchlist w u u2 cb s =
  match get_user_watchlist_body w u u2 cb s with
  | (Return l, s') => (Return l, s')
  | (Raise e, s') =>
      (Return [],
       {| common_movies := common_movies s';
          error_message := Some (u, e);
          sent := sent s'; db_calls := db_calls s'; trace := trace s' |})
  end.
Proof.
  unfold get_user_watchlist, try_except.
  by destruct (get_user_watchlist_body w u u2 cb s) as [[l|e] s'].
Qed.

(** [get_user_watchlist] returns the empty list exactly when retrieval
    fails. *)
Lemma get_user_watchlist_empty w u u2 cb s :
  fst (get_user_watchlist w u u2 cb s) = Return [] <-> retrieval_fails w u u2 cb s.
Proof.
  rewrite get_user_watchlist_run. unfold retrieval_fails.
  destruct (get_user_watchlist_body w u u2 cb s) as [[l|e] s'] eqn:E; simpl.
  - apply get_user_watchlist_body_nonempty in E. split.
    + by intros [= ->].
    + by intros (? & ? & ?).
  - split; [eauto|done].
Qed.

(** The runs of [compare_watchlists], case by case. *)
Lemma compare_watchlists_run w u1 u2 cb s :
  compare_watchlists w u1 u2 cb s =
  match get_user_watchlist w u1 u2 cb s with
  | (Return [], s1) | (Raise _, s1) => (Return (error "user_not_found" []), s1)
  | (Return (a :: A), s1) =>
      match get_user_watchlist w u2 u1 cb s1 with
      | (Return [], s2) | (Raise _, s2) => (Return (error "user_not_found" []), s2)
      | (Return (b :: B), s2) =>
          match compare w u1 u2 (a :: A) (b :: B) s2 with
          | (Return r, s3) => (Return r, s3)
          | (Raise _, s3) => (Return (error "user_not_found" []), s3)
          end
      end
  end.
Proof.
  unfold compare_watchlists, try_except, bind, ret, raise.
  destruct (get_user_watchlist w u1 u2 cb s) as [[[|a A]|e] s1]; [done| |done].
  destruct (get_user_watchlist w u2 u1 cb s1) as [[[|b B]|e] s2]; [done| |done].
  by destruct (compare w u1 u2 (a :: A) (b :: B) s2) as [[r|e] s3].
Qed.

(** A success dictionary of [compare_watchlists] is the one [compare]
    returns on the two retrieved, non-empty watchlists. *)
Lemma compare_watchlists_success w u1 u2 cb s r s' :
  compare_watchlists w u1 u2 cb s = (Return r, s') ->
  r <> error "user_not_found" [] ->
  exists A B s1 s2,
    get_user_watchlist w u1 u2 cb s = (Return A, s1)
    /\ get_user_watchlist w u2 u1 cb s1 = (Return B, s2)
    /\ A <> [] /\ B <> []
    /\ compare w u1 u2 A B s2 = (Return r, s').
Proof.
  rewrite compare_watchlists_run.
  destruct (get_user_watchlist w u1 u2 cb s) as [[[|a A]|e] s1] eqn:E1;
    [by intros [= <- _]| |by intros [= <- _]].
  destruct (get_user_watchlist w u2 u1 cb s1) as [[[|b B]|e] s2] eqn:E2;
    [by intros [= <- _]| |by intros [= <- _]].
  destruct (compare w u1 u2 (a :: A) (b :: B) s2) as [[r'|e] s3] eqn:E;
    [|by intros [= <- _]].
  intros [= <- <-] _. exists (a :: A), (b :: B), s1, s2.
  split; [reflexivity|]. split; [exact E2|].
  split; [discriminate|]. split; [discriminate|]. exact E.
Qed.

(** C2: in every dictionary with status ['success'] that
    [compare_watchlists] returns, [common_total] is the length of
    [common_movies]. *)
Theorem common_total_is_length w u1 u2 cb s common n1 n2 common_total stats s' :
  compare_watchlists w u1 u2 cb s
    = (Return (success common n1 n2 common_total stats), s') ->
  common_total = length common.
Proof.
  rewrite compare_watchlists_run.
  destruct (get_user_watchlist w u1 u2 cb s) as [[[|a A]|e] s1]; try done.
  destruct (get_user_watchlist w u2 u1 cb s1) as [[[|b B]|e] s2]; try done.
  destruct (compare w u1 u2 (a :: A) (b :: B) s2) as [[r|e] s3] eqn:E; [|done].
  intros [= -> ->]. apply compare_Return in E as (q & _ & [= -> _ _ -> _] & _).
  done.
Qed.

Lemma common_total_is_length_witness : 2 = length (map MovieInfo_of_title ["Arrival"; "Dune"]).
Proof.
  apply (common_total_is_length sample_world "alice" "bob" (Some silent) init
           _ 3 3 2 {| overlap_percentage := (200 # 3)%Q; total_unique_movies := 4 |}
           (snd (compare_watchlists sample_world "alice" "bob" (Some silent) init))).
  vm_compute. reflexivity.
Defined.

(** [compare_watchlists] never raises: it always returns a dictionary. *)
Lemma compare_watchlists_returns w u1 u2 cb s :
  exists r, fst (compare_watchlists w u1 u2 cb s) = Return r.
Proof.
  rewrite compare_watchlists_run.
  destruct (get_user_watchlist w u1 u2 cb s) as [[[|a A]|e] s1]; simpl; eauto.
  destruct (get_user_watchlist w u2 u1 cb s1) as [[[|b B]|e] s2]; simpl; eauto.
  destruct (compare w u1 u2 (a :: A) (b :: B) s2) as [[r|e] s3]; simpl; eauto.
Qed.

(** C7: [compare_watchlists] never raises, it always returns a
    dictionary; and when the retrieval of either watchlist fails, for
    whatever exception, that dictionary is the error one, with message
    ['user_not_found'] and an empty [common_movies], and the comparison
    proper has not run: the [common_movies] field is untouched and
    nothing was saved. *)
Theorem compare_watchlists_failure w u1 u2 cb s :
  (exists r, fst (compare_watchlists w u1 u2 cb s) = Return r)
  /\ (retrieval_fails w u1 u2 cb s
      \/ retrieval_fails w u2 u1 cb (snd (get_user_watchlist w u1 u2 cb s)) ->
      exists s',
        compare_watchlists w u1 u2 cb s = (Return (error "user_not_found" []), s')
        /\ result_common_movies (error "user_not_found" []) = []
        /\ retrieval_steps s s').
Proof.
  split; [apply compare_watchlists_returns|].
  intros Hfail. rewrite compare_watchlists_run.
  pose proof (keeps_get_user_watchlist w u1 u2 cb s) as K1.
  destruct (get_user_watchlist w u1 u2 cb s) as [[[|a A]|e] s1] eqn:E1;
    simpl in *; eauto.
  destruct Hfail as [Hfail|Hfail].
  { apply get_user_watchlist_empty in Hfail. rewrite E1 in Hfail. done. }
  apply get_user_watchlist_empty in Hfail.
  pose proof (keeps_get_user_watchlist w u2 u1 cb s1) as K2.
  destruct (get_user_watchlist w u2 u1 cb s1) as [[[|b B]|e] s2]; simpl in *;
    [|done|done].
  eexists. repeat split; try done; eapply retrieval_steps_trans; eauto; apply K2.
Qed.

Lemma compare_watchlists_failure_witness :
  (exists r, fst (compare_watchlists no_carol "alice" "carol" None init) = Return r)
  /\ exists s',
       compare_watchlists no_carol "alice" "carol" None init
         = (Return (error "user_not_found" []), s')
       /\ result_common_movies (error "user_not_found" []) = []
       /\ retrieval_steps init s'.
Proof.
  destruct (compare_watchlists_failure no_carol "alice" "carol" None init)
    as [Hret Hfail].
  split; [exact Hret|]. apply Hfail.
  right. eexists _, _. vm_compute. reflexivity.
Defined.

(** ** The empty watchlist *)

(** C6: when the profile check and the first page go through and the loop
    over the pages ends with no movie at all, the protected block raises
    the "No movies found" error; [get_user_watchlist] records it and
    returns its failure value without any database update, so that
    retrieval counts as failed. *)
Theorem empty_watchlist_is_error w u u2 cb s s1 page s2 N s3 :
  _check_user_profile w u s = (Return tt, s1) ->
  _fetch_watchlist_page w ("https://letterboxd.com/" +:+ u +:+ "/watchlist/") s1
    = (Return page, s2) ->
  last_page_of page = Return N ->
  fetch_pages w u ("https://letterboxd.com/" +:+ u +:+ "/watchlist/")
              N cb (seqZ 0 N) [] s2
    = (Return [], s3) ->
  let e := ValueError ("No movies found for user: " +:+ u) in
  get_user_watchlist_body w u u2 cb s = (Raise e, s3)
  /\ get_user_watchlist w u u2 cb s = (Return [], with_error_message u e s3)
  /\ retrieval_fails w u u2 cb s.
Proof.
  intros H1 H2 HN H3 e.
  assert (Hbody : get_user_watchlist_body w u u2 cb s = (Raise e, s3)).
  { unfold get_user_watchlist_body, bind, lift. rewrite H1, H2, HN, H3. done. }
  split; [done|]. split.
  - rewrite get_user_watchlist_run, Hbody. done.
  - by exists e, s3.
Qed.

Lemma empty_watchlist_is_error_witness :
  let e := ValueError ("No movies found for user: " +:+ "dave") in
  let s3 := snd (get_user_watchlist_body empty_dave "dave" "alice" None init) in
  get_user_watchlist_body empty_dave "dave" "alice" None init = (Raise e, s3)
  /\ get_user_watchlist empty_dave "dave" "alice" None init
     = (Return [], with_error_message "dave" e s3)
  /\ retrieval_fails empty_dave "dave" "alice" None init.
Proof.
  apply (empty_watchlist_is_error empty_dave "dave" "alice" None init
           (snd (_check_user_profile empty_dave "dave" init))
           (page_of [] [])
           (snd (_fetch_watchlist_page empty_dave "https://letterboxd.com/dave/watchlist/"
                   (snd (_check_user_profile empty_dave "dave" init))))
           1%Z).
  - vm_compute. reflexivity.
  - vm_compute. reflexivity.
  - vm_compute. reflexivity.
  - vm_compute. reflexivity.
Defined.

(** ** Progress reports *)

Lemma fetch_watchlist_page_Return w url s d s' :
  _fetch_watchlist_page w url s = (Return d, s') ->
  http w (sent s) url = Response 200 d /\ s' = after_get url s.
Proof.
  unfold _fetch_watchlist_page, bind, session_get.
  destruct (http w (sent s) url) as [c d'|]; simpl; [|done].
  case_decide; unfold ret, raise; [|done].
  intros [= <- <-]. by subst.
Qed.

(** A completed loop with a callback that returns: for each page, in
    order, one report, the request for the page and the pause. *)
Lemma fetch_pages_trace w u url N f pages acc s wl s' :
  N <> 0%Z ->
  (forall p, f p u = Return tt) ->
  fetch_pages w u url N (Some f) pages acc s = (Return wl, s') ->
  trace s' = trace s ++ flat_map (fun pn => page_events u url N (pn + 1)) pages.
Proof.
  intros HN Hf. revert acc s.
  induction pages as [|pn pages IH]; intros acc s; simpl.
  { unfold ret. intros [= _ <-]. by rewrite app_nil_r. }
  unfold bind at 1. unfold bind at 1. unfold lift at 1. unfold truediv.
  destruct (decide (N = 0%Z)) as [|_]; [done|].
  unfold bind at 1. unfold emit at 1. unfold lift at 1. rewrite Hf.
  unfold bind at 1.
  destruct (_fetch_watchlist_page w _ _) as [[d|e] s1] eqn:E; [|done].
  apply fetch_watchlist_page_Return in E as [_ ->].
  unfold bind at 1. unfold sleep, emit at 1.
  intros H%IH. rewrite H. simpl. rewrite <- !app_assoc. done.
Qed.

Lemma percent_lt i j N :
  (0 < N)%Z -> (i < j)%Z -> (percent i N < percent j N)%Q.
Proof.
  intros HN Hij. unfold percent.
  apply Qmult_lt_compat_r; [reflexivity|].
  unfold Qdiv. apply Qmult_lt_compat_r.
  - apply Qinv_lt_0_compat. change 0%Q with (inject_Z 0).
    rewrite <- Zlt_Qlt. exact HN.
  - rewrite <- Zlt_Qlt. exact Hij.
Qed.

Lemma percent_last N : (0 < N)%Z -> (percent N N == 100)%Q.
Proof.
  intros HN. unfold percent, Qdiv. rewrite Qmult_inv_r; [reflexivity|].
  intros H. change 0%Q with (inject_Z 0) in H.
  rewrite inject_Z_injective in H. lia.
Qed.

(** C5, as stated, fails: on bob's one-page watchlist the callback is
    called with 100 before the page is requested, and no call follows
    the request. *)
Lemma progress_not_after_fetch :
  let tr := trace (snd (get_user_watchlist sample_world "bob" "alice"
                          (Some silent) init)) in
  tr !! 2%nat = Some (EvProgress 100 "bob")
  /\ tr !! 3%nat = Some (EvGet "https://letterboxd.com/bob/watchlist/page/1/")
  /\ ~ progress_after_fetch tr "bob" "https://letterboxd.com/bob/watchlist/page/1/".
Proof.
  set (tr := trace _). vm_compute in tr. subst tr. cbv zeta.
  split; [reflexivity|]. split; [reflexivity|].
  intros (p & i & j & Hi & Hj & Hlt).
  repeat (destruct i as [|i]; simpl in Hi; try discriminate Hi).
  repeat (destruct j as [|j]; simpl in Hj; try discriminate Hj; try lia).
Qed.

(** C5, amended: in a retrieval whose callback returns and whose loop
    over [N] pages completes, the callback is called exactly once per
    page, immediately before that page is requested, with
    [page_index / N * 100]; these values increase strictly and the last
    one is 100 (as exact rationals). *)
Theorem progress_once_per_page w u url N f acc s wl s' :
  (forall p, f p u = Return tt) ->
  fetch_pages w u url N (Some f) (seqZ 0 N) acc s = (Return wl, s') ->
  trace s' = trace s ++ flat_map (page_events u url N) (seqZ 1 N)
  /\ (forall i j, (1 <= i)%Z -> (i < j)%Z -> (j <= N)%Z ->
        (percent i N < percent j N)%Q)
  /\ ((1 <= N)%Z -> (percent N N == 100)%Q).
Proof.
  intros Hf Hrun. split; [|split].
  - destruct (decide (N <= 0)%Z) as [Hle|Hgt].
    + rewrite seqZ_nil in Hrun by done. rewrite seqZ_nil by done.
      simpl in Hrun. unfold ret in Hrun. injection Hrun as _ <-.
      by rewrite app_nil_r.
    + apply fetch_pages_trace in Hrun; [|lia|done]. rewrite Hrun. f_equal.
      replace (seqZ 1 N) with (Z.add 1 <$> seqZ 0 N)
        by exact (fmap_add_seqZ 1 0 N).
      clear.
      induction (seqZ 0 N) as [|k l IH]; [done|]. simpl.
      rewrite IH. by rewrite (Z.add_comm k 1).
  - intros i j Hi Hij Hj. apply percent_lt; lia.
  - intros HN. apply percent_last. lia.
Qed.

Lemma progress_once_per_page_witness :
  let s := snd (_fetch_watchlist_page sample_world "https://letterboxd.com/alice/watchlist/"
                  (snd (_check_user_profile sample_world "alice" init))) in
  let run := fetch_pages sample_world "alice" "https://letterboxd.com/alice/watchlist/" 2
               (Some silent) (seqZ 0 2) [] s in
  trace (snd run)
    = trace s ++ flat_map (page_events "alice" "https://letterboxd.com/alice/watchlist/" 2)
                          (seqZ 1 2)
  /\ (forall i j, (1 <= i)%Z -> (i < j)%Z -> (j <= 2)%Z ->
        (percent i 2 < percent j 2)%Q)
  /\ ((1 <= 2)%Z -> (percent 2 2 == 100)%Q).
Proof.
  intros s run.
  apply (progress_once_per_page sample_world "alice"
           "https://letterboxd.com/alice/watchlist/" 2 silent [] s
           (map MovieInfo_of_title ["Inception"; "Arrival"; "Dune"]) (snd run)).
  - intros p. reflexivity.
  - vm_compute. reflexivity.
Defined.

(** ** The last page *)

(** [max] with a default: on a non-empty list the result is an element
    and bounds every element. *)
Lemma fold_left_max_spec xs x :
  let m := fold_left Z.max xs x in
  (m = x \/ m ∈ xs) /\ (x <= m)%Z /\ forall y, y ∈ xs -> (y <= m)%Z.
Proof.
  revert x. induction xs as [|a xs IH]; intros x; simpl.
  { split; [by left|]. split; [lia|]. by intros y ?%elem_of_nil. }
  destruct (IH (Z.max x a)) as (Hm & Hle & Hall).
  split; [|split].
  - destruct Hm as [Hm|Hm]; [|right; by right].
    rewrite Hm. destruct (Z.max_spec x a) as [[_ E]|[_ E]]; rewrite E.
    + right. by left.
    + by left.
  - lia.
  - intros y [->|Hy]%elem_of_cons; [lia|by apply Hall].
Qed.

Lemma max_default_nil d : max_default [] d = d.
Proof. reflexivity. Qed.

Lemma max_default_spec xs d :
  xs <> [] ->
  max_default xs d ∈ xs /\ forall y, y ∈ xs -> (y <= max_default xs d)%Z.
Proof.
  destruct xs as [|x xs]; [done|]. intros _. simpl.
  destruct (fold_left_max_spec xs x) as (Hm & Hle & Hall). split.
  - destruct Hm as [->|Hm]; [by left|by right].
  - intros y [->|Hy]%elem_of_cons; [done|by apply Hall].
Qed.

(** When every label is read, the page numbers are the values of the
    labels that pass [isdigit], in order. *)
Lemma int_labels_Return anchors ns :
  int_labels anchors = Return ns ->
  Forall2 (fun a n => int (text a) = Return n)
          (List.filter (fun a => isdigit (text a)) anchors) ns.
Proof.
  revert ns. induction anchors as [|a anchors IH]; intros ns; simpl.
  { intros [= <-]. constructor. }
  destruct (isdigit (text a)); [|apply IH].
  destruct (int (text a)) as [n|e] eqn:Hn; [|done].
  destruct (int_labels anchors) as [ns'|e]; [|done].
  intros [= <-]. constructor; [done|]. by apply IH.
Qed.

(** The generator raises exactly when [int] refuses a label that passes
    [isdigit], with the exception of such a label. *)
Lemma int_labels_Raise anchors e :
  int_labels anchors = Raise e ->
  exists a, a ∈ anchors /\ isdigit (text a) = true /\ int (text a) = Raise e.
Proof.
  induction anchors as [|a anchors IH]; simpl; [done|].
  destruct (isdigit (text a)) eqn:Hd.
  - destruct (int (text a)) as [n|e'] eqn:Hn.
    + destruct (int_labels anchors) as [ns|e']; [done|].
      intros [= <-]. destruct IH as (a' & Ha' & H'); [done|].
      exists a'. split; [by right|done].
    + intros [= <-]. exists a. split; [by left|done].
  - intros H. destruct (IH H) as (a' & Ha' & H'). exists a'. split; [by right|done].
Qed.

Lemma int_labels_refused anchors a e :
  a ∈ anchors -> isdigit (text a) = true -> int (text a) = Raise e ->
  exists e', int_labels anchors = Raise e'.
Proof.
  intros Ha Hd He. destruct (int_labels anchors) as [ns|e'] eqn:E; [|by eexists].
  apply int_labels_Return in E. exfalso.
  assert (Hin : a ∈ List.filter (fun a => isdigit (text a)) anchors).
  { apply list_elem_of_In, filter_In. by rewrite <- list_elem_of_In. }
  clear Ha Hd. induction E as [|a' n l ns Hn E IH]; [by apply elem_of_nil in Hin|].
  apply elem_of_cons in Hin as [->|Hin]; [congruence|by apply IH].
Qed.

(** Where the page count is computed, it is 1 when the first page has no
    pagination control or when no link label of the control passes
    [isdigit]; otherwise it is the greatest of the numbers read from the
    labels that pass it. *)
Lemma last_page_of_Return initial_page N :
  last_page_of initial_page = Return N ->
  match find "div" "pagination" initial_page with
  | None => N = 1%Z
  | Some pagination =>
      let labels := map text (find_all_tags "a" pagination) in
      (forall l, l ∈ labels -> isdigit l = true ->
         exists n, int l = Return n /\ (n <= N)%Z)
      /\ ((exists l, l ∈ labels /\ isdigit l = true /\ int l = Return N)
          \/ ((forall l, l ∈ labels -> isdigit l = false) /\ N = 1%Z))
  end.
Proof.
  unfold last_page_of, page_numbers.
  destruct (find "div" "pagination" initial_page) as [pg|]; [|by intros [= <-]].
  destruct (int_labels (find_all_tags "a" pg)) as [ns|e] eqn:E; [|done].
  intros [= <-]. apply int_labels_Return in E.
  set (anchors := find_all_tags "a" pg) in *.
  assert (Hread : forall a, a ∈ anchors -> isdigit (text a) = true ->
                    exists n, int (text a) = Return n /\ n ∈ ns).
  { intros a Ha Hd.
    assert (Hin : a ∈ List.filter (fun a => isdigit (text a)) anchors).
    { apply list_elem_of_In, filter_In. by rewrite <- list_elem_of_In. }
    clear Ha Hd. induction E as [|a' n l ns' Hn E IH]; [by apply elem_of_nil in Hin|].
    apply elem_of_cons in Hin as [->|Hin].
    - exists n. split; [done|by left].
    - destruct (IH Hin) as (n' & Hn' & Hin'). exists n'. split; [done|by right]. }
  assert (Hfrom : forall n, n ∈ ns ->
                    exists a, a ∈ anchors /\ isdigit (text a) = true
                              /\ int (text a) = Return n).
  { intros n Hin. clear Hread.
    assert (Hsub : forall a, a ∈ List.filter (fun a => isdigit (text a)) anchors ->
                     a ∈ anchors /\ isdigit (text a) = true).
    { intros a Ha. apply list_elem_of_In, filter_In in Ha as [Ha Hd].
      by rewrite list_elem_of_In. }
    induction E as [|a' n' l ns' Hn E IH]; [by apply elem_of_nil in Hin|].
    apply elem_of_cons in Hin as [->|Hin].
    - exists a'. destruct (Hsub a') as [? ?]; [by left|]. done.
    - apply IH; [done|]. intros a Ha. apply Hsub. by right. }
  simpl. split.
  - intros l (a & -> & Ha)%list_elem_of_fmap Hd.
    destruct (Hread a Ha Hd) as (n & Hn & Hin). exists n. split; [done|].
    destruct ns as [|x xs]; [by apply elem_of_nil in Hin|].
    by apply (max_default_spec (x :: xs) 1).
  - destruct ns as [|x xs].
    + right. split; [|done]. intros l (a & -> & Ha)%list_elem_of_fmap.
      destruct (isdigit (text a)) eqn:Hd; [|done].
      destruct (Hread a Ha Hd) as (n & _ & Hin). by apply elem_of_nil in Hin.
    + left. destruct (max_default_spec (x :: xs) 1) as [Hin _]; [done|].
      destruct (Hfrom _ Hin) as (a & Ha & Hd & Hn).
      exists (text a). split; [|done]. apply list_elem_of_fmap. eauto.
Qed.

(** The examples of the specification: labels 1, 2, 3 and an ellipsis
    give 3; no pagination control gives 1. A decimal digit of another
    script is read like an ASCII one. *)
Example last_page_examples :
  last_page_of (page_of ["Dune"] ["1"; "2"; "3"; "…"]) = Return 3%Z
  /\ last_page_of single_page = Return 1%Z
  /\ last_page_of (page_of ["Dune"] ["…"; "Next"]) = Return 1%Z
  /\ last_page_of (page_of ["Dune"] ["1"; "٣"]) = Return 3%Z.
Proof. vm_compute. done. Qed.

(** The superscript two is a digit for [isdigit] and no numeral for
    [int]. *)
Example superscript_two :
  isdigit "²" = true
  /\ int "²" = Raise (ValueError "invalid literal for int() with base 10: '²'")
  /\ last_page_of superscript_page
     = Raise (ValueError "invalid literal for int() with base 10: '²'").
Proof. vm_compute. done. Qed.

(** C4: [last_page] is not always computed. A link label that passes
    [isdigit] and that [int] refuses (a superscript two, a circled digit,
    a numeral of more than 4300 digits) is not ignored: the computation
    raises the exception of such a label, and the retrieval fails with it,
    after the first page and before any numbered page is requested. *)
Theorem unread_digit_label_fails w u u2 cb s s1 page s2 pagination a e :
  _check_user_profile w u s = (Return tt, s1) ->
  _fetch_watchlist_page w ("https://letterboxd.com/" +:+ u +:+ "/watchlist/") s1
    = (Return page, s2) ->
  find "div" "pagination" page = Some pagination ->
  a ∈ find_all_tags "a" pagination ->
  isdigit (text a) = true ->
  int (text a) = Raise e ->
  exists a' e',
    a' ∈ find_all_tags "a" pagination
    /\ isdigit (text a') = true
    /\ int (text a') = Raise e'
    /\ last_page_of page = Raise e'
    /\ get_user_watchlist_body w u u2 cb s = (Raise e', s2)
    /\ get_user_watchlist w u u2 cb s = (Return [], with_error_message u e' s2)
    /\ retrieval_fails w u u2 cb s.
Proof.
  intros H1 H2 Hpg Ha Hd He.
  destruct (int_labels_refused _ _ _ Ha Hd He) as [e' E].
  destruct (int_labels_Raise _ _ E) as (a' & Ha' & Hd' & He').
  assert (Hlast : last_page_of page = Raise e').
  { unfold last_page_of, page_numbers. by rewrite Hpg, E. }
  assert (Hbody : get_user_watchlist_body w u u2 cb s = (Raise e', s2)).
  { unfold get_user_watchlist_body, bind, lift. by rewrite H1, H2, Hlast. }
  exists a', e'. do 5 (split; [done|]). split.
  - rewrite get_user_watchlist_run, Hbody. done.
  - by exists e', s2.
Qed.

Lemma unread_digit_label_fails_witness :
  exists a' e',
    a' ∈ find_all_tags "a" (Tag "div" ["pagination"] ∅ (map anchor ["1"; "²"]))
    /\ isdigit (text a') = true
    /\ int (text a') = Raise e'
    /\ last_page_of superscript_page = Raise e'
    /\ get_user_watchlist_body superscript_world "erin" "alice" None init
       = (Raise e', after_get "https://letterboxd.com/erin/watchlist/"
                      (after_get "https://letterboxd.com/erin/" init))
    /\ get_user_watchlist superscript_world "erin" "alice" None init
       = (Return [],
          with_error_message "erin" e'
            (after_get "https://letterboxd.com/erin/watchlist/"
               (after_get "https://letterboxd.com/erin/" init)))
    /\ retrieval_fails superscript_world "erin" "alice" None init.
Proof.
  apply (unread_digit_label_fails superscript_world "erin" "alice" None init
           (after_get "https://letterboxd.com/erin/" init) superscript_page
           (after_get "https://letterboxd.com/erin/watchlist/"
              (after_get "https://letterboxd.com/erin/" init))
           (Tag "div" ["pagination"] ∅ (map anchor ["1"; "²"]))
           (anchor "²")
           (ValueError "invalid literal for int() with base 10: '²'")).
  - vm_compute. reflexivity.
  - vm_compute. reflexivity.
  - vm_compute. reflexivity.
  - right. left.
  - vm_compute. reflexivity.
  - vm_compute. reflexivity.
Defined.

(** ** Extracted records *)

Lemma truthy_Some o : truthy o = true -> exists t, o = Some t /\ t <> "".
Proof.
  destruct o as [t|]; simpl; [|done]. intros H. exists t. split; [done|].
  intros ->. done.
Qed.

(** An extracted record has the title of the data attribute or, when
    that attribute is missing or empty, of the image's [alt] text. *)
Lemma extract_movie_info_Some p m :
  _extract_movie_info p = Some m ->
  extracted m
  /\ (get "data-film-name" p = Some (title m)
      \/ (truthy (get "data-film-name" p) = false
          /\ image_alt p = Some (title m))).
Proof.
  unfold _extract_movie_info. fold (image_alt p).
  destruct (truthy (get "data-film-name" p)) eqn:Hd.
  - destruct (truthy_Some _ Hd) as (t & Ht1 & Ht). rewrite Hd, Ht1.
    intros [= <-]. by repeat split; [|left].
  - destruct (image_alt p) as [t|] eqn:Ha; [|done].
    destruct (truthy (Some t)) eqn:Ht; [|done].
    apply truthy_Some in Ht as (t' & [= <-] & Ht).
    intros [= <-]. repeat split; [done|]. right. done.
Qed.

(** The poster is dropped exactly when neither source has a title. *)
Lemma extract_movie_info_None p :
  _extract_movie_info p = None <->
  truthy (get "data-film-name" p) = false /\ truthy (image_alt p) = false.
Proof.
  unfold _extract_movie_info. fold (image_alt p).
  destruct (truthy (get "data-film-name" p)) eqn:Hd.
  - destruct (truthy_Some _ Hd) as (t & Ht & _). rewrite Hd, Ht.
    split; [done|]. by intros [? _].
  - destruct (image_alt p) as [t|]; [|done].
    destruct (truthy (Some t)); split; try done. by intros [_ ?].
Qed.

Lemma parse_movie_page_extracted soup m :
  m ∈ _parse_movie_page soup -> extracted m.
Proof.
  unfold _parse_movie_page. destruct (find_film_grid soup) as [g|].
  - intros (li & _ & H)%list_elem_of_omap.
    destruct (find "div" "film-poster" li) as [fp|]; [|done].
    by apply extract_movie_info_Some in H as [? _].
  - intros (fp & _ & H)%list_elem_of_omap.
    by apply extract_movie_info_Some in H as [? _].
Qed.

Lemma fetch_pages_extracted w u url N cb pages acc s wl s' :
  Forall extracted acc ->
  fetch_pages w u url N cb pages acc s = (Return wl, s') ->
  Forall extracted wl.
Proof.
  revert acc s. induction pages as [|pn pages IH]; intros acc s Hacc; simpl.
  { unfold ret. by intros [= <- _]. }
  match goal with
  | |- bind ?m _ s = _ -> _ =>
      unfold bind at 1; destruct (m s) as [[[]|?] s0]; [|done]
  end.
  unfold bind at 1.
  destruct (_fetch_watchlist_page w _ s0) as [[soup|?] s1]; [|done].
  unfold bind at 1, sleep, emit at 1.
  apply IH. apply Forall_app. split; [done|].
  apply Forall_forall. intros m. apply parse_movie_page_extracted.
Qed.

Lemma get_user_watchlist_extracted w u u2 cb s wl s' :
  get_user_watchlist w u u2 cb s = (Return wl, s') -> Forall extracted wl.
Proof.
  rewrite get_user_watchlist_run.
  destruct (get_user_watchlist_body w u u2 cb s) as [[l|e] s0] eqn:E.
  2:{ by intros [= <- _]. }
  intros [= <- _]. revert E. unfold get_user_watchlist_body, bind, lift.
  destruct (_check_user_profile w u s) as [[[]|?] s1]; [|done].
  destruct (_fetch_watchlist_page w _ s1) as [[page|?] s2]; [|done].
  destruct (last_page_of page) as [N|?]; [|done].
  destruct (fetch_pages w _ _ _ _ _ _ s2) as [[[|m wl']|?] s3] eqn:F; [done| |done].
  destruct (_update_database w _ _ _ s3) as [[[]|?] s4]; [|done].
  unfold ret. intros [= <- _].
  by apply fetch_pages_extracted in F.
Qed.

(** C10: every record the extractor produces has a non-empty title,
    taken from the poster's data attribute or else from the [alt] text of
    its image, and an empty list of genres; a poster with neither title
    is dropped; so every record of a page, and of a retrieved watchlist
    (the records that reach comparison), has a non-empty title and no
    genres. *)
Theorem extracted_records :
  (forall p m, _extract_movie_info p = Some m ->
     title m <> "" /\ genres m = []
     /\ (get "data-film-name" p = Some (title m)
         \/ (truthy (get "data-film-name" p) = false
             /\ image_alt p = Some (title m))))
  /\ (forall p, _extract_movie_info p = None <->
        truthy (get "data-film-name" p) = false /\ truthy (image_alt p) = false)
  /\ (forall soup m, m ∈ _parse_movie_page soup ->
        title m <> "" /\ genres m = [])
  /\ (forall w u u2 cb s wl s' m,
        get_user_watchlist w u u2 cb s = (Return wl, s') -> m ∈ wl ->
        title m <> "" /\ genres m = []).
Proof.
  split; [|split; [|split]].
  - intros p m H. apply extract_movie_info_Some in H as [[? ?] ?]. done.
  - apply extract_movie_info_None.
  - apply parse_movie_page_extracted.
  - intros w u u2 cb s wl s' m H Hm.
    apply get_user_watchlist_extracted in H.
    rewrite Forall_forall in H. by apply H.
Qed.

(** ** Layouts *)

Lemma marked_false nm c d :
  In (nm, c) markers -> marked d = false -> matches nm c d = false.
Proof.
  intros Hin H. apply not_true_iff_false. intros Hm.
  apply not_true_iff_false in H. apply H.
  apply existsb_exists. by exists (nm, c).
Qed.

Lemma filter_unmarked nm c l :
  In (nm, c) markers ->
  forallb (fun d => negb (marked d)) l = true ->
  List.filter (matches nm c) l = [].
Proof.
  intros Hin. induction l as [|d l IH]; [done|]. simpl.
  intros [Hd Hl]%andb_true_iff. apply negb_true_iff in Hd.
  rewrite (marked_false nm c d Hin Hd). by apply IH.
Qed.

Lemma below_app l1 l2 : below (l1 ++ l2) = below l1 ++ below l2.
Proof. apply List.flat_map_app. Qed.

Lemma below_plain cs :
  forallb plain cs = true -> forallb (fun d => negb (marked d)) (below cs) = true.
Proof.
  induction cs as [|c cs IH]; [done|]. simpl.
  intros [Hc Hcs]%andb_true_iff. unfold plain in Hc. simpl in Hc.
  apply andb_true_iff in Hc as [Hc Hd].
  rewrite Hc, List.forallb_app, Hd. simpl. by apply IH.
Qed.

(** A tag matches under one name only. *)
Lemma matches_other_name nm c nm' c' p :
  matches nm c p = true -> nm' <> nm -> matches nm' c' p = false.
Proof.
  destruct p as [|n cl a cs]; [done|]. simpl.
  intros [Hn _]%andb_true_iff Hne. apply bool_decide_eq_true in Hn. subst n.
  apply andb_false_iff. left. apply bool_decide_eq_false. congruence.
Qed.

Section Posters.

Variable posters : list node.
Hypothesis posters_ok : forallb is_poster posters = true.

Lemma poster_facts p :
  In p posters ->
  matches "div" "film-poster" p = true
  /\ matches "div" "films-grid" p = false
  /\ forallb (fun d => negb (marked d)) (descendants p) = true.
Proof.
  intros Hp. pose proof posters_ok as H. rewrite forallb_forall in H.
  specialize (H p Hp). unfold is_poster in H.
  apply andb_true_iff in H as [[H1 H2]%andb_true_iff H3].
  by apply negb_true_iff in H2.
Qed.

(** Among the posters and what is below them, the flat scan finds the
    posters. *)
Lemma posters_flat_scan :
  List.filter (matches "div" "film-poster") (below posters) = posters.
Proof.
  pose proof poster_facts as F. clear posters_ok.
  induction posters as [|p ps IH]; [done|]. simpl.
  destruct (F p) as (H1 & _ & H3); [by left|]. rewrite H1.
  rewrite List.filter_app, (filter_unmarked "div" "film-poster" _ ltac:(simpl; tauto) H3).
  simpl. f_equal. apply IH. intros q Hq. apply F. by right.
Qed.

(** There is no grid marker, and no list item, among them. *)
Lemma posters_no_grid nm c :
  In (nm, c) [("ul", "poster-list"); ("ul", "films-grid");
              ("div", "films-grid"); ("li", "poster-container")] ->
  List.filter (matches nm c) (below posters) = [].
Proof.
  intros Hin. pose proof poster_facts as F. clear posters_ok.
  induction posters as [|p ps IH]; [done|]. simpl.
  destruct (F p) as (H1 & H2 & H3); [by left|].
  assert (Hp : matches nm c p = false).
  { simpl in Hin.
    destruct Hin as [[= <- <-]|[[= <- <-]|[[= <- <-]|[[= <- <-]|[]]]]]; try done;
      by apply (matches_other_name _ _ _ _ _ H1). }
  rewrite Hp, List.filter_app.
  rewrite (filter_unmarked nm c (descendants p)); [|simpl in *; tauto|done].
  simpl. apply IH. intros q Hq. apply F. by right.
Qed.

Lemma below_items :
  below (map item posters)
  = flat_map (fun p => item p :: p :: descendants p) posters.
Proof.
  clear posters_ok. induction posters as [|p ps IH]; [done|].
  change (below (map item (p :: ps)))
    with (item p :: ((p :: descendants p) ++ []) ++ below (map item ps)).
  rewrite app_nil_r, IH. done.
Qed.

(** Inside a grid, the items found are one per poster. *)
Lemma items_found :
  List.filter (matches "li" "poster-container") (below (map item posters))
  = map item posters.
Proof.
  rewrite below_items. pose proof poster_facts as F. clear posters_ok.
  induction posters as [|p ps IH]; [done|]. simpl.
  destruct (F p) as (H1 & _ & H3); [by left|].
  rewrite (matches_other_name _ _ "li" "poster-container" _ H1) by done.
  rewrite List.filter_app, (filter_unmarked "li" "poster-container" _ ltac:(simpl; tauto) H3).
  simpl. f_equal. apply IH. intros q Hq. apply F. by right.
Qed.

Lemma items_no_grid nm c :
  In (nm, c) [("ul", "poster-list"); ("ul", "films-grid"); ("div", "films-grid")] ->
  List.filter (matches nm c) (below (map item posters)) = [].
Proof.
  intros Hin. rewrite below_items. pose proof poster_facts as F. clear posters_ok.
  induction posters as [|p ps IH]; [done|].
  cbn [flat_map app List.filter].
  destruct (F p) as (H1 & H2 & H3); [by left|].
  assert (Hi : matches nm c (item p) = false).
  { simpl in Hin. by destruct Hin as [[= <- <-]|[[= <- <-]|[[= <- <-]|[]]]]. }
  assert (Hp : matches nm c p = false).
  { simpl in Hin.
    destruct Hin as [[= <- <-]|[[= <- <-]|[[= <- <-]|[]]]]; try done;
      by apply (matches_other_name _ _ _ _ _ H1). }
  rewrite Hi, Hp, List.filter_app.
  rewrite (filter_unmarked nm c (descendants p)); [|simpl in *; tauto|done].
  simpl. apply IH. intros q Hq. apply F. by right.
Qed.

(** The poster looked up in an item is the poster it wraps. *)
Lemma item_poster p :
  In p posters -> find "div" "film-poster" (item p) = Some p.
Proof.
  intros Hp. destruct (poster_facts p Hp) as (H1 & _ & _).
  unfold find, find_all. simpl. by rewrite H1.
Qed.

Lemma extract_items :
  omap (fun film_item =>
          match find "div" "film-poster" film_item with
          | Some film_poster => _extract_movie_info film_poster
          | None => None
          end) (map item posters)
  = omap _extract_movie_info posters.
Proof.
  pose proof item_poster as F. clear posters_ok.
  induction posters as [|p ps IH]; [done|].
  cbn [map omap list_omap]. rewrite F by (by left).
  rewrite IH; [done|]. intros q Hq. apply F. by right.
Qed.

End Posters.

(** What a search for a marker sees in a rendered document: only the
    part that lays out the posters. *)
Lemma find_all_render nm c l before after posters :
  In (nm, c) markers ->
  forallb plain before = true -> forallb plain after = true ->
  find_all nm c (render l before after posters)
  = List.filter (matches nm c) (below (grid l posters)).
Proof.
  intros Hin Hb Ha. unfold find_all, render. cbn [descendants].
  fold (below (before ++ grid l posters ++ after)).
  rewrite !below_app, !List.filter_app.
  rewrite (filter_unmarked nm c (below before)) by (done || by apply below_plain).
  rewrite (filter_unmarked nm c (below after)) by (done || by apply below_plain).
  by rewrite app_nil_r.
Qed.

(** In a forest made of one grid container, a search for a grid marker
    finds the container or nothing. *)
Lemma filter_grid nm c gn gc posters :
  forallb is_poster posters = true ->
  In (nm, c) [("ul", "poster-list"); ("ul", "films-grid"); ("div", "films-grid")] ->
  List.filter (matches nm c) (below [Tag gn [gc] ∅ (map item posters)])
  = if matches nm c (Tag gn [gc] ∅ [])
    then [Tag gn [gc] ∅ (map item posters)] else [].
Proof.
  intros Hp Hin. cbn [below flat_map descendants].
  fold (below (map item posters)). rewrite app_nil_r. cbn [List.filter].
  rewrite (items_no_grid posters Hp nm c Hin).
  change (matches nm c (Tag gn [gc] ∅ (map item posters)))
    with (matches nm c (Tag gn [gc] ∅ [])).
  done.
Qed.

(** The grid container found in each layout. *)
Lemma find_film_grid_render l before after posters :
  forallb plain before = true -> forallb plain after = true ->
  forallb is_poster posters = true ->
  find_film_grid (render l before after posters)
  = match l with
    | FlatScan => None
    | _ => head (grid l posters)
    end.
Proof.
  intros Hb Ha Hp. unfold find_film_grid, find.
  rewrite !find_all_render by (done || simpl; tauto).
  destruct l; cbn [grid].
  1-3: rewrite !(filter_grid _ _ _ _ posters Hp) by (simpl; tauto); reflexivity.
  by rewrite !(posters_no_grid posters Hp) by (simpl; tauto).
Qed.

(** Every layout of the same posters is parsed to the same records. *)
Lemma parse_render l before after posters :
  forallb plain before = true -> forallb plain after = true ->
  forallb is_poster posters = true ->
  _parse_movie_page (render l before after posters)
  = omap _extract_movie_info posters.
Proof.
  intros Hb Ha Hp. unfold _parse_movie_page.
  rewrite find_film_grid_render by done.
  destruct l; cbn [grid head].
  1-3: unfold find_all; cbn [descendants]; fold (below (map item posters));
       rewrite (items_found posters Hp); by apply extract_items.
  rewrite find_all_render by (done || simpl; tauto). cbn [grid].
  by rewrite (posters_flat_scan posters Hp).
Qed.




(** The four layouts of the sample posters. *)
Example layouts_example :
  map (fun l => map title (_parse_movie_page
                             (render l sample_header sample_footer sample_posters)))
      [PrimaryGrid; FallbackList; FallbackBlock; FlatScan]
  = [["Dune"; "Arrival"]; ["Dune"; "Arrival"]; ["Dune"; "Arrival"];
     ["Dune"; "Arrival"]].
Proof. vm_compute. reflexivity. Qed.

(** * Further properties of the scraper *)

(** ** The comparison on particular pairs of watchlists *)

Lemma filter_all_elem (A : list MovieInfo) :
  filter (fun m => title m ∈ map title A) A = A.
Proof.
  assert (H : forall l : list MovieInfo,
            (forall m, m ∈ l -> title m ∈ map title A) ->
                        filter (fun m => title m ∈ map title A) l = l).
  { induction l as [|a l IH]; intros Hl; [done|].
    rewrite filter_cons_True by (apply Hl; by left).
    f_equal. apply IH. intros m Hm. apply Hl. by right. }
  apply H. intros m Hm. apply list_elem_of_fmap. eauto.
Qed.

Lemma Q_ratio_le_100 k m :
  (0 < m)%Z -> (k <= m)%Z -> (inject_Z k / inject_Z m * 100 <= 100)%Q.
Proof.
  intros Hm Hk.
  apply (Qle_trans _ (1 * 100)%Q); [|discriminate].
  apply Qmult_le_compat_r; [|discriminate].
  apply Qle_shift_div_r.
  - change 0%Q with (inject_Z 0). rewrite <- Zlt_Qlt. exact Hm.
  - rewrite Qmult_1_l. rewrite <- Zle_Qle. exact Hk.
Qed.

Lemma Q_ratio_nonneg k m :
  (0 <= k)%Z -> (0 < m)%Z -> (0 <= inject_Z k / inject_Z m * 100)%Q.
Proof.
  intros Hk Hm. apply Qmult_le_0_compat; [|discriminate].
  apply Qle_shift_div_l.
  - change 0%Q with (inject_Z 0). rewrite <- Zlt_Qlt. exact Hm.
  - rewrite Qmult_0_l. change 0%Q with (inject_Z 0). rewrite <- Zle_Qle. exact Hk.
Qed.

(** A successful [compare] has divided by a positive number. *)
Lemma compare_Return_min w u1 u2 A B s r s' :
  compare w u1 u2 A B s = (Return r, s') ->
  (0 < Z.of_nat (length A) `min` Z.of_nat (length B))%Z.
Proof.
  intros (q & Hq & _)%compare_Return. unfold truediv in Hq.
  case_decide; [done|]. lia.
Qed.

(** X1: comparing a watchlist with itself succeeds only on a list that is
    not empty; then every record is common, repeated titles included, and
    the overlap is 100. *)
Theorem compare_self w u1 u2 A s r s' :
  compare w u1 u2 A A s = (Return r, s') ->
  A <> []
  /\ exists stats,
       r = success A (length A) (length A) (length A) stats
       /\ (overlap_percentage stats == 100)%Q
       /\ total_unique_movies stats = size (title_set A).
Proof.
  intros H. pose proof (compare_Return_min _ _ _ _ _ _ _ _ H) as Hmin.
  split.
  { intros ->. simpl in Hmin. lia. }
  apply compare_Return in H as (q & Hq & -> & _).
  rewrite filter_all_elem in *. eexists. split; [reflexivity|]. simpl.
  unfold truediv in Hq. case_decide; [done|]. simplify_eq.
  rewrite Z.min_id in *. split.
  - unfold Qdiv. rewrite Qmult_inv_r; [reflexivity|].
    intros H0. change 0%Q with (inject_Z 0) in H0.
    rewrite inject_Z_injective in H0. lia.
  - unfold title_set. rewrite fmap_app, list_to_set_app_L.
    by rewrite (idemp_L (∪)).
Qed.

Lemma compare_self_witness :
  twice "Dune" <> []
  /\ exists stats,
       success (twice "Dune") 2 2 2
         {| overlap_percentage := inject_Z 2 / inject_Z 2 * 100;
            total_unique_movies := 1 |}
       = success (twice "Dune") (length (twice "Dune")) (length (twice "Dune"))
                 (length (twice "Dune")) stats
       /\ (overlap_percentage stats == 100)%Q
       /\ total_unique_movies stats = size (title_set (twice "Dune")).
Proof.
  apply (compare_self sample_world "alice" "alice" (twice "Dune") init _
           (snd (compare sample_world "alice" "alice" (twice "Dune")
                   (twice "Dune") init))).
  vm_compute. reflexivity.
Defined.

(** X2: the titles of the common movies are the intersection of the two title
    sets, so they do not depend on which watchlist comes first; nor does
    the number of distinct titles. *)
Theorem compare_titles_symmetric w1 w2 u1 u2 u1' u2' A B s1 s2 r1 r2 s1' s2' :
  compare w1 u1 u2 A B s1 = (Return r1, s1') ->
  compare w2 u1' u2' B A s2 = (Return r2, s2') ->
  title_set (result_common_movies r1) = title_set A ∩ title_set B
  /\ title_set (result_common_movies r2) = title_set (result_common_movies r1)
  /\ match r1, r2 with
     | success _ _ _ _ st1, success _ _ _ _ st2 =>
         total_unique_movies st1 = total_unique_movies st2
     | _, _ => False
     end.
Proof.
  intros (q1 & _ & -> & _)%compare_Return (q2 & _ & -> & _)%compare_Return.
  simpl. rewrite <- !filter_common_titles.
  assert (Hset : forall X Y : list MovieInfo,
            title_set (filter (fun m => title m ∈ title_set X ∩ title_set Y) X)
            = title_set X ∩ title_set Y).
  { intros X Y. unfold title_set. apply set_eq. intros t.
    rewrite elem_of_list_to_set, list_elem_of_fmap. split.
    - intros (m & -> & [Hm _]%list_elem_of_filter). done.
    - intros Ht. pose proof Ht as [(m & -> & Hm)%elem_of_list_to_set%list_elem_of_fmap _]%elem_of_intersection.
      exists m. split; [done|]. by apply list_elem_of_filter. }
  rewrite !Hset. clear Hset. split; [done|]. split; [apply (comm_L (∩))|].
  unfold title_set. rewrite !fmap_app, !list_to_set_app_L.
  f_equal. apply (comm_L (∪)).
Qed.

Lemma compare_titles_symmetric_witness :
  title_set (result_common_movies sample_result) = title_set listA ∩ title_set listB
  /\ title_set (map MovieInfo_of_title ["Dune"; "Arrival"])
     = title_set (result_common_movies sample_result)
  /\ 4 = 4.
Proof.
  apply (compare_titles_symmetric sample_world sample_world "alice" "bob" "bob" "alice"
           listA listB init used sample_result
           (success (map MovieInfo_of_title ["Dune"; "Arrival"]) 3 3 2
              {| overlap_percentage := (200 # 3)%Q; total_unique_movies := 4 |})
           (snd (compare sample_world "alice" "bob" listA listB init))
           (snd (compare sample_world "bob" "alice" listB listA used))).
  - vm_compute. reflexivity.
  - vm_compute. reflexivity.
Defined.

(** The titles of [A] that occur in [B] are the intersection of the two
    title sets. *)
Lemma title_set_filter (A B : list MovieInfo) :
  title_set (filter (fun m => title m ∈ map title B) A)
  = title_set A ∩ title_set B.
Proof.
  unfold title_set. apply set_eq. intros t.
  rewrite elem_of_intersection, !elem_of_list_to_set, !list_elem_of_fmap. split.
  - intros (m & -> & [HB HA]%list_elem_of_filter). split; [eauto|].
    by apply list_elem_of_fmap in HB.
  - intros [(m & -> & Hm) HB]. exists m. split; [done|].
    apply list_elem_of_filter. split; [|done]. by apply list_elem_of_fmap.
Qed.

Lemma NoDup_title_filter (P : MovieInfo -> Prop) `{!forall m, Decision (P m)}
    (A : list MovieInfo) :
  NoDup (map title A) -> NoDup (map title (filter P A)).
Proof.
  intros HA. assert (Hs : map title (filter P A) `sublist_of` map title A)
    by apply (fmap_sublist title), sublist_filter.
  eauto using sublist_NoDup.
Qed.

(** X3: when the first watchlist repeats no title, the common movies are at
    most as many as the shorter watchlist, so the overlap lies between 0
    and 100. *)
Theorem compare_overlap_bounds w u1 u2 A B s common n1 n2 common_total stats s' :
  NoDup (map title A) ->
  compare w u1 u2 A B s = (Return (success common n1 n2 common_total stats), s') ->
  common_total <= n1 `min` n2
  /\ (0 <= overlap_percentage stats)%Q
  /\ (overlap_percentage stats <= 100)%Q.
Proof.
  intros HA H. pose proof (compare_Return_min _ _ _ _ _ _ _ _ H) as Hmin.
  apply compare_Return in H as (q & Hq & [= -> -> -> -> ->] & _).
  set (c := filter (fun m => title m ∈ map title B) A) in *.
  assert (Hc1 : length c <= length A) by apply length_filter.
  assert (Hc2 : length c <= length B).
  { rewrite <- (length_fmap title c), <- (length_fmap title B).
    apply submseteq_length, NoDup_submseteq.
    - by apply NoDup_title_filter.
    - intros t (m & -> & [HB _]%list_elem_of_filter)%list_elem_of_fmap. done. }
  unfold truediv in Hq. case_decide; [done|]. simplify_eq. simpl.
  split; [lia|]. split.
  - apply Q_ratio_nonneg; lia.
  - apply Q_ratio_le_100; lia.
Qed.

Lemma compare_overlap_bounds_witness :
  2 <= 3 `min` 3 /\ (0 <= 200 # 3)%Q /\ (200 # 3 <= 100)%Q.
Proof.
  apply (compare_overlap_bounds sample_world "alice" "bob" listA listB init
           (map MovieInfo_of_title ["Arrival"; "Dune"]) 3 3 2
           {| overlap_percentage := (200 # 3)%Q; total_unique_movies := 4 |}
           (snd (compare sample_world "alice" "bob" listA listB init))).
  - apply (bool_decide_unpack _). vm_compute. exact I.
  - vm_compute. reflexivity.
Defined.

(** A repeated title in the first watchlist can push the overlap above
    100. *)
Example overlap_above_100 :
  fst (compare sample_world "alice" "bob" (twice "Dune")
         [MovieInfo_of_title "Dune"] init)
  = Return (success (twice "Dune") 2 1 2
              {| overlap_percentage := (200 # 1)%Q; total_unique_movies := 1 |}).
Proof. vm_compute. reflexivity. Qed.

(** X4: when neither watchlist repeats a title, the distinct titles and the
    common movies add up to the two totals. *)
Theorem compare_unique_plus_common w u1 u2 A B s common n1 n2 common_total stats s' :
  NoDup (map title A) -> NoDup (map title B) ->
  compare w u1 u2 A B s = (Return (success common n1 n2 common_total stats), s') ->
  total_unique_movies stats + common_total = n1 + n2.
Proof.
  intros HA HB (q & _ & [= -> -> -> -> ->] & _)%compare_Return. simpl.
  set (X := title_set A). set (Y := title_set B).
  assert (Hk : length (filter (fun m => title m ∈ map title B) A) = size (X ∩ Y)).
  { unfold X, Y. rewrite <- title_set_filter. unfold title_set.
    rewrite size_list_to_set by (by apply NoDup_title_filter).
    by rewrite length_map. }
  assert (HX : length A = size X).
  { unfold X, title_set. rewrite size_list_to_set by done. by rewrite length_map. }
  assert (HY : length B = size Y).
  { unfold Y, title_set. rewrite size_list_to_set by done. by rewrite length_map. }
  assert (HXY : title_set (A ++ B) = X ∪ Y).
  { unfold X, Y, title_set. by rewrite fmap_app, list_to_set_app_L. }
  rewrite Hk, HX, HY, HXY.
  rewrite size_union_alt, size_difference_alt.
  assert (size (Y ∩ X) <= size Y) by (apply subseteq_size, intersection_subseteq_l).
  rewrite (comm_L (∩) X Y). lia.
Qed.

Lemma compare_unique_plus_common_witness : 4 + 2 = 3 + 3.
Proof.
  apply (compare_unique_plus_common sample_world "alice" "bob" listA listB init
           (map MovieInfo_of_title ["Arrival"; "Dune"]) 3 3 2
           {| overlap_percentage := (200 # 3)%Q; total_unique_movies := 4 |}
           (snd (compare sample_world "alice" "bob" listA listB init))).
  - apply (bool_decide_unpack _). vm_compute. exact I.
  - apply (bool_decide_unpack _). vm_compute. exact I.
  - vm_compute. reflexivity.
Defined.

(** ** What the steps of a retrieval preserve *)

Section Respects.

Variable R : state -> state -> Prop.
Hypothesis R_refl : forall s, R s s.
Hypothesis R_trans : forall s1 s2 s3, R s1 s2 -> R s2 s3 -> R s1 s3.

Lemma respects_ret {A} (a : A) : respects R (ret a).
Proof. intros s. apply R_refl. Qed.

Lemma respects_raise {A} e : respects R (@raise A e).
Proof. intros s. apply R_refl. Qed.

Lemma respects_lift {A} (o : outcome A) : respects R (lift o).
Proof. intros s. apply R_refl. Qed.

Lemma respects_bind {A B} (m : M A) (k : A -> M B) :
  respects R m -> (forall a, respects R (k a)) -> respects R (bind m k).
Proof.
  intros Hm Hk s. unfold bind. specialize (Hm s).
  destruct (m s) as [[a|e] s1]; simpl in *; [|done].
  eapply R_trans; [done|apply Hk].
Qed.

Hypothesis R_progress : forall p u, respects R (emit (EvProgress p u)).
Hypothesis R_sleep : respects R (emit EvSleep).
Hypothesis R_get : forall w url, respects R (session_get w url).

Lemma respects_check_user_profile w u : respects R (_check_user_profile w u).
Proof.
  unfold _check_user_profile. apply respects_bind; [apply R_get|].
  intros r. case_decide; [apply respects_ret|apply respects_raise].
Qed.

Lemma respects_fetch_watchlist_page w url :
  respects R (_fetch_watchlist_page w url).
Proof.
  unfold _fetch_watchlist_page. apply respects_bind; [apply R_get|].
  intros r. case_decide; [apply respects_ret|apply respects_raise].
Qed.

Lemma respects_fetch_pages w u url N cb pages acc :
  respects R (fetch_pages w u url N cb pages acc).
Proof.
  revert acc. induction pages as [|pn pages IH]; intros acc; simpl.
  { apply respects_ret. }
  apply respects_bind.
  { destruct cb as [f|]; [|apply respects_ret].
    apply respects_bind; [apply respects_lift|]. intros q.
    apply respects_bind; [apply R_progress|]. intros _. apply respects_lift. }
  intros _. apply respects_bind; [apply respects_fetch_watchlist_page|].
  intros soup. apply respects_bind; [apply R_sleep|]. intros _. apply IH.
Qed.

Lemma respects_retrieve_pages w u cb : respects R (retrieve_pages w u cb).
Proof.
  unfold retrieve_pages.
  apply respects_bind; [apply respects_check_user_profile|]. intros _.
  apply respects_bind; [apply respects_fetch_watchlist_page|]. intros page.
  apply respects_bind; [apply respects_lift|]. intros N.
  apply respects_fetch_pages.
Qed.

Hypothesis R_db : forall w c, is_save (EvDb c) = false -> respects R (db_do w c).

Lemma respects_update_database w u u2 movies :
  respects R (_update_database w u u2 movies).
Proof.
  unfold _update_database.
  apply respects_bind; [by apply R_db|]. intros found.
  apply respects_bind.
  { destruct found; [apply respects_ret|].
    apply respects_bind; [by apply R_db|]. intros _. apply respects_ret. }
  intros _. apply respects_bind.
  { induction movies as [|m movies IH]; [apply respects_ret|].
    apply respects_bind; [by apply R_db|]. intros _. apply IH. }
  intros _. apply respects_bind; [by apply R_db|]. intros _. apply respects_ret.
Qed.

Lemma respects_get_user_watchlist_body w u u2 cb :
  respects R (get_user_watchlist_body w u u2 cb).
Proof.
  unfold get_user_watchlist_body.
  apply respects_bind; [apply respects_check_user_profile|]. intros _.
  apply respects_bind; [apply respects_fetch_watchlist_page|]. intros page.
  apply respects_bind; [apply respects_lift|]. intros N.
  apply respects_bind; [apply respects_fetch_pages|]. intros [|m wl].
  - apply respects_raise.
  - apply respects_bind; [apply respects_update_database|]. intros _.
    apply respects_ret.
Qed.

End Respects.

Lemma quiet_refl s : quiet s s.
Proof. repeat split. exists []. by rewrite app_nil_r. Qed.

Lemma quiet_trans s1 s2 s3 : quiet s1 s2 -> quiet s2 s3 -> quiet s1 s3.
Proof.
  intros (A1 & B1 & C1 & e1 & T1 & F1) (A2 & B2 & C2 & e2 & T2 & F2).
  repeat split; [congruence..|].
  exists (e1 ++ e2). rewrite T2, T1, app_assoc. split; [done|].
  by apply Forall_app.
Qed.

Lemma quiet_emit e : is_db e = false -> respects quiet (emit e).
Proof.
  intros He s. repeat split. exists [e]. split; [done|]. by constructor.
Qed.

Lemma quiet_session_get w url : respects quiet (session_get w url).
Proof.
  intros s. unfold session_get.
  destruct (http w (sent s) url); repeat split;
    exists [EvGet url]; (split; [done|]); by constructor.
Qed.

(** The site is queried without any database call and without touching
    the scraper's fields. *)
Lemma quiet_retrieve_pages w u cb : respects quiet (retrieve_pages w u cb).
Proof.
  apply respects_retrieve_pages.
  - apply quiet_refl.
  - apply quiet_trans.
  - intros p u'. by apply quiet_emit.
  - by apply quiet_emit.
  - apply quiet_session_get.
Qed.

Lemma same_fields_get_user_watchlist_body w u u2 cb :
  respects same_fields (get_user_watchlist_body w u u2 cb).
Proof.
  apply respects_get_user_watchlist_body.
  - by split.
  - intros s1 s2 s3 [A1 B1] [A2 B2]. split; congruence.
  - intros p u' s. by split.
  - intros s. by split.
  - intros w' url s. unfold session_get. by destruct (http w' (sent s) url).
  - intros w' c _ s. unfold db_do. by destruct (db w' (db_calls s) c).
Qed.

(** [get_user_watchlist_body] is [retrieve_pages] followed, when there is
    a movie, by the database update. *)
Lemma get_user_watchlist_body_split w u u2 cb s :
  get_user_watchlist_body w u u2 cb s =
  match retrieve_pages w u cb s with
  | (Raise e, s1) => (Raise e, s1)
  | (Return [], s1) =>
      (Raise (ValueError ("No movies found for user: " +:+ u)), s1)
  | (Return (m :: wl), s1) =>
      match _update_database w u u2 (m :: wl) s1 with
      | (Return _, s2) => (Return (m :: wl), s2)
      | (Raise e, s2) => (Raise e, s2)
      end
  end.
Proof.
  unfold get_user_watchlist_body, retrieve_pages, watchlist_url, bind, lift.
  destruct (_check_user_profile w u s) as [[[]|?] s1]; [|done].
  destruct (_fetch_watchlist_page w _ s1) as [[page|?] s2]; [|done].
  destruct (last_page_of page) as [N|?]; [|done].
  destruct (fetch_pages w _ _ _ _ _ _ s2) as [[[|m wl]|?] s3]; [done| |done].
  by destruct (_update_database w _ _ _ s3) as [[[]|?] s4].
Qed.

(** ** Requests and pages *)

Lemma fetch_pages_cons w u url N cb pn rest acc :
  fetch_pages w u url N cb (pn :: rest) acc
  = (report_progress cb u N pn ;;;
     page_soup <- _fetch_watchlist_page w (url +:+ "page/" +:+ pretty (pn + 1)%Z +:+ "/") ;;
     sleep ;;;
     fetch_pages w u url N cb rest (acc ++ _parse_movie_page page_soup)).
Proof. reflexivity. Qed.

Lemma report_progress_sent cb u N pn s o s0 :
  report_progress cb u N pn s = (o, s0) -> sent s0 = sent s.
Proof.
  unfold report_progress. destruct cb as [f|]; [|by intros [= _ <-]].
  unfold bind, lift, emit. destruct (truediv (pn + 1) N); [|by intros [= _ <-]].
  destruct (f _ u); by intros [= _ <-].
Qed.

(** A completed loop has received one page with status 200 per page
    number, in order, and returns the records of these pages in that
    order after the ones it started with. *)
Lemma fetch_pages_Return w u url N cb pages acc s wl s' :
  fetch_pages w u url N cb pages acc s = (Return wl, s') ->
  exists docs,
    length docs = length pages
    /\ sent s' = sent s + length pages
    /\ (forall i pn doc, pages !! i = Some pn -> docs !! i = Some doc ->
          http w (sent s + i) (url +:+ "page/" +:+ pretty (pn + 1)%Z +:+ "/")
          = Response 200 doc)
    /\ wl = acc ++ flat_map _parse_movie_page docs.
Proof.
  revert acc s. induction pages as [|pn pages IH]; intros acc s.
  { simpl. unfold ret. intros [= <- <-]. exists []. simpl.
    rewrite app_nil_r. repeat split; [lia|]. by intros i pn doc ?. }
  rewrite fetch_pages_cons. unfold bind at 1.
  destruct (report_progress cb u N pn s) as [[[]|?] s0] eqn:E0; [|done].
  apply report_progress_sent in E0. unfold bind at 1.
  destruct (_fetch_watchlist_page w _ s0) as [[d|?] s1] eqn:E1; [|done].
  apply fetch_watchlist_page_Return in E1 as [Hd ->].
  unfold bind at 1, sleep, emit at 1.
  intros (docs & Hlen & Hsent & Hdocs & ->)%IH. simpl in *.
  exists (d :: docs). simpl. repeat split.
  - by rewrite Hlen.
  - lia.
  - intros [|i] pn' doc; simpl.
    + intros [= <-] [= <-]. by rewrite Nat.add_0_r, <- E0.
    + intros Hp Hdoc. rewrite <- (Hdocs i pn' doc Hp Hdoc). f_equal. lia.
  - by rewrite <- app_assoc.
Qed.

(** What a successful query of the site has received. *)
Lemma retrieve_pages_Return w u cb s wl s' :
  retrieve_pages w u cb s = (Return wl, s') ->
  exists profile first N pages,
    http w (sent s) (profile_url u) = Response 200 profile
    /\ http w (S (sent s)) (watchlist_url u) = Response 200 first
    /\ last_page_of first = Return N
    /\ length pages = Z.to_nat N
    /\ (forall i page, pages !! i = Some page ->
          http w (sent s + 2 + i) (page_url u (Z.of_nat i + 1)) = Response 200 page)
    /\ wl = flat_map _parse_movie_page pages
    /\ sent s' = sent s + 2 + length pages.
Proof.
  unfold retrieve_pages. unfold bind at 1.
  destruct (_check_user_profile w u s) as [[[]|?] s1] eqn:E1; [|done].
  assert (Hp : exists profile, http w (sent s) (profile_url u) = Response 200 profile
                               /\ s1 = after_get (profile_url u) s).
  { revert E1. unfold _check_user_profile, bind, session_get. fold (profile_url u).
    destruct (http w (sent s) (profile_url u)) as [c d|]; [|done]. simpl.
    case_decide; [|done]. unfold ret. intros [= <-]. subst c. eauto. }
  destruct Hp as (profile & Hprofile & ->). unfold bind at 1.
  destruct (_fetch_watchlist_page w _ _) as [[first|?] s2] eqn:E2; [|done].
  apply fetch_watchlist_page_Return in E2 as [Hfirst ->]. simpl in Hfirst.
  unfold bind at 1, lift.
  destruct (last_page_of first) as [N|?] eqn:HN; [|done].
  intros (docs & Hlen & Hsent & Hdocs & ->)%fetch_pages_Return.
  rewrite length_seqZ in *. simpl in *.
  exists profile, first, N, docs. repeat split; try done; [|lia].
  intros i page Hpage.
  assert (Hi : (Z.of_nat i < N)%Z).
  { apply lookup_lt_Some in Hpage. lia. }
  specialize (Hdocs i (Z.of_nat i) page (lookup_seqZ_lt 0 _ i Hi) Hpage).
  rewrite <- Hdocs. unfold page_url. f_equal. lia.
Qed.

(** X5: a watchlist that [get_user_watchlist] returns is the concatenation,
    in page order, of the records of the pages [page/1/] to
    [page/last_page/]; the first page, requested as [watchlist/], only
    gives the number of pages. *)
Theorem watchlist_is_concatenation w u u2 cb s m wl s' :
  get_user_watchlist w u u2 cb s = (Return (m :: wl), s') ->
  exists first last_page pages,
    http w (S (sent s)) (watchlist_url u) = Response 200 first
    /\ last_page_of first = Return last_page
    /\ length pages = Z.to_nat last_page
    /\ (forall i page, pages !! i = Some page ->
          http w (sent s + 2 + i) (page_url u (Z.of_nat i + 1)) = Response 200 page)
    /\ m :: wl = flat_map _parse_movie_page pages.
Proof.
  rewrite get_user_watchlist_run, get_user_watchlist_body_split.
  destruct (retrieve_pages w u cb s) as [[[|m' wl']|e] s1] eqn:E; [done| |done].
  destruct (_update_database w u u2 (m' :: wl') s1) as [[[]|?] s2]; [|done].
  intros [= <- <- <-].
  apply retrieve_pages_Return in E
    as (profile & first & N & pages & _ & H1 & HN & H2 & H3 & H4 & _).
  by exists first, N, pages.
Qed.

Lemma watchlist_is_concatenation_witness :
  exists first last_page pages,
    http sample_world 1 (watchlist_url "alice") = Response 200 first
    /\ last_page_of first = Return last_page
    /\ length pages = Z.to_nat last_page
    /\ (forall i page, pages !! i = Some page ->
          http sample_world (0 + 2 + i) (page_url "alice" (Z.of_nat i + 1))
          = Response 200 page)
    /\ listA = flat_map _parse_movie_page pages.
Proof.
  apply (watchlist_is_concatenation sample_world "alice" "bob" None init
           (MovieInfo_of_title "Inception")
           (map MovieInfo_of_title ["Arrival"; "Dune"])
           (snd (get_user_watchlist sample_world "alice" "bob" None init))).
  vm_compute. reflexivity.
Defined.

(** ** Failures of a retrieval *)

(** X6: the profile check is a gate: when the profile request does not answer
    200, [get_user_watchlist] has made that one request and nothing
    else, records the error and returns the empty list. *)
Theorem profile_gate w u u2 cb s :
  (forall d, http w (sent s) (profile_url u) <> Response 200 d) ->
  exists e,
    get_user_watchlist w u u2 cb s
    = (Return [], with_error_message u e (after_get (profile_url u) s))
    /\ (e = ValueError ("User profile not found: " +:+ u) \/ e = RequestException).
Proof.
  intros Hnot. rewrite get_user_watchlist_run.
  unfold get_user_watchlist_body. unfold bind at 1.
  unfold _check_user_profile, bind, session_get. fold (profile_url u).
  destruct (http w (sent s) (profile_url u)) as [c d|] eqn:E; simpl.
  - case_decide as Hc; [subst c; by destruct (Hnot d)|].
    unfold raise. eexists. split; [reflexivity|]. by left.
  - eexists. split; [reflexivity|]. by right.
Qed.

Lemma profile_gate_witness :
  exists e,
    get_user_watchlist no_carol "carol" "alice" None init
    = (Return [], with_error_message "carol" e (after_get (profile_url "carol") init))
    /\ (e = ValueError ("User profile not found: " +:+ "carol") \/ e = RequestException).
Proof.
  apply (profile_gate no_carol "carol" "alice" None init).
  intros d. vm_compute. discriminate.
Defined.

(** Whatever goes wrong while the site is queried, [get_user_watchlist]
    returns the empty list with the error recorded, and the database has
    not been called. *)
Lemma no_database_call_on_failure w u u2 cb s :
  (forall m wl, fst (retrieve_pages w u cb s) <> Return (m :: wl)) ->
  exists e,
    get_user_watchlist w u u2 cb s
    = (Return [], with_error_message u e (snd (retrieve_pages w u cb s)))
    /\ quiet s (snd (retrieve_pages w u cb s)).
Proof.
  intros Hfail. pose proof (quiet_retrieve_pages w u cb s) as Hq.
  rewrite get_user_watchlist_run, get_user_watchlist_body_split.
  destruct (retrieve_pages w u cb s) as [[[|m wl]|e] s1]; simpl in *.
  - eauto.
  - by destruct (Hfail m wl).
  - eauto.
Qed.

(** X7: all or nothing: when one of the pages does not answer 200, the
    records of the pages before it are dropped, the result is the empty
    list, the [common_movies] field is untouched and no database call has
    been made. *)
Theorem failing_page_discards_all w u u2 cb s first last_page i :
  http w (S (sent s)) (watchlist_url u) = Response 200 first ->
  last_page_of first = Return last_page ->
  (Z.of_nat i < last_page)%Z ->
  (forall d, http w (sent s + 2 + i) (page_url u (Z.of_nat i + 1)) <> Response 200 d) ->
  let s' := snd (get_user_watchlist w u u2 cb s) in
  fst (get_user_watchlist w u u2 cb s) = Return []
  /\ db_calls s' = db_calls s
  /\ common_movies s' = common_movies s
  /\ exists evs, trace s' = trace s ++ evs /\ Forall (fun e => is_db e = false) evs.
Proof.
  intros Hfirst Hlast Hi Hbad s'.
  destruct (no_database_call_on_failure w u u2 cb s) as (e & Hrun & Hq).
  { intros m wl Hret.
    destruct (retrieve_pages w u cb s) as [o s1] eqn:E. simpl in Hret. subst o.
    apply retrieve_pages_Return in E
      as (profile & first' & N & pages & _ & H1 & HN & Hlen & Hpages & _).
    rewrite Hfirst in H1. injection H1 as <-.
    rewrite Hlast in HN. injection HN as <-.
    destruct (pages !! i) as [page|] eqn:Hp.
    - by destruct (Hbad page (Hpages i page Hp)).
    - apply lookup_ge_None in Hp. lia. }
  subst s'. rewrite Hrun. simpl.
  destruct Hq as (Hc & _ & Hd & Ht). done.
Qed.

Lemma failing_page_discards_all_witness :
  let s' := snd (get_user_watchlist broken_page "alice" "bob" None init) in
  fst (get_user_watchlist broken_page "alice" "bob" None init) = Return []
  /\ db_calls s' = db_calls init
  /\ common_movies s' = common_movies init
  /\ exists evs, trace s' = trace init ++ evs /\ Forall (fun e => is_db e = false) evs.
Proof.
  apply (failing_page_discards_all broken_page "alice" "bob" None init
           (page_of ["Inception"; "Arrival"] ["1"; "2"; "…"]) 2 1).
  - vm_compute. reflexivity.
  - vm_compute. reflexivity.
  - reflexivity.
  - intros d. vm_compute. discriminate.
Defined.

(** X8: a successful retrieval does not clear an earlier error: the error
    that [get_error_message] returns afterwards is the one it returned
    before. *)
Theorem success_keeps_error_message w u u2 cb s m wl s' :
  get_user_watchlist w u u2 cb s = (Return (m :: wl), s') ->
  get_error_message s' = (Return (error_message s), s')
  /\ common_movies s' = common_movies s.
Proof.
  rewrite get_user_watchlist_run.
  pose proof (same_fields_get_user_watchlist_body w u u2 cb s) as [Hc He].
  destruct (get_user_watchlist_body w u u2 cb s) as [[l|e] s1]; [|done].
  intros [= -> ->]. simpl in *. unfold get_error_message. by rewrite He.
Qed.

Lemma success_keeps_error_message_witness :
  let s' := snd (get_user_watchlist sample_world "bob" "alice" None used) in
  get_error_message s' = (Return (Some ("carol", RequestException)), s')
  /\ common_movies s' = [MovieInfo_of_title "Whiplash"].
Proof.
  apply (success_keeps_error_message sample_world "bob" "alice" None used
           (MovieInfo_of_title "Dune")
           (map MovieInfo_of_title ["Arrival"; "Whiplash"])).
  vm_compute. reflexivity.
Defined.

(** X9: when the first retrieval fails, [compare_watchlists] stops there: the
    second user is not looked up at all. *)
Theorem first_failure_short_circuits w u1 u2 cb s :
  retrieval_fails w u1 u2 cb s ->
  compare_watchlists w u1 u2 cb s
  = (Return (error "user_not_found" []), snd (get_user_watchlist w u1 u2 cb s)).
Proof.
  intros Hfail%get_user_watchlist_empty. rewrite compare_watchlists_run.
  destruct (get_user_watchlist w u1 u2 cb s) as [o s1]. simpl in *. by subst o.
Qed.

Lemma first_failure_short_circuits_witness :
  compare_watchlists no_carol "carol" "alice" None init
  = (Return (error "user_not_found" []),
     snd (get_user_watchlist no_carol "carol" "alice" None init)).
Proof.
  apply (first_failure_short_circuits no_carol "carol" "alice" None init).
  eexists _, _. vm_compute. reflexivity.
Defined.

(** X10: when both retrievals succeed and saving the comparison raises, the
    caller gets the error dictionary with an empty list, while the
    [common_movies] field already holds the common movies of this
    comparison. *)
Theorem save_failure_leaves_common_movies w u1 u2 cb s A B s1 s2 :
  get_user_watchlist w u1 u2 cb s = (Return A, s1) -> A <> [] ->
  get_user_watchlist w u2 u1 cb s1 = (Return B, s2) -> B <> [] ->
  let cm := filter (fun m => title m ∈ map title B) A in
  db w (db_calls s2) (SaveCommonMovies u1 u2 cm) = DbRaise ->
  exists s',
    compare_watchlists w u1 u2 cb s = (Return (error "user_not_found" []), s')
    /\ common_movies s' = cm.
Proof.
  intros H1 HA H2 HB cm Hdb. rewrite compare_watchlists_run, H1.
  destruct A as [|a A]; [done|]. rewrite H2.
  destruct B as [|b B]; [done|]. rewrite compare_run. fold cm. rewrite Hdb.
  eexists. split; reflexivity.
Qed.

Lemma save_failure_leaves_common_movies_witness :
  exists s',
    compare_watchlists failing_save "alice" "bob" None init
    = (Return (error "user_not_found" []), s')
    /\ common_movies s' = filter (fun m => title m ∈ map title listB) listA.
Proof.
  apply (save_failure_leaves_common_movies failing_save "alice" "bob" None init
           listA listB
           (snd (get_user_watchlist failing_save "alice" "bob" None init))
           (snd (get_user_watchlist failing_save "bob" "alice" None
                   (snd (get_user_watchlist failing_save "alice" "bob" None init))))).
  - vm_compute. reflexivity.
  - discriminate.
  - vm_compute. reflexivity.
  - discriminate.
  - reflexivity.
Defined.

(** X11: a first page whose pagination control has 0 as its greatest number
    makes the scraper request no page at all and report an empty
    watchlist, whatever the first page shows. *)
Theorem zero_last_page w u u2 cb s profile first last_page :
  http w (sent s) (profile_url u) = Response 200 profile ->
  http w (S (sent s)) (watchlist_url u) = Response 200 first ->
  last_page_of first = Return last_page ->
  (last_page <= 0)%Z ->
  get_user_watchlist w u u2 cb s
  = (Return [],
     with_error_message u (ValueError ("No movies found for user: " +:+ u))
       (after_get (watchlist_url u) (after_get (profile_url u) s))).
Proof.
  intros Hp Hf Hlast Hz. rewrite get_user_watchlist_run.
  unfold get_user_watchlist_body. unfold bind at 1.
  unfold _check_user_profile, bind at 1, session_get at 1.
  fold (profile_url u). rewrite Hp. simpl.
  unfold bind at 1, _fetch_watchlist_page, bind at 1, session_get at 1.
  fold (watchlist_url u). simpl. rewrite Hf. simpl.
  unfold bind at 1, lift. rewrite Hlast.
  rewrite seqZ_nil by done. reflexivity.
Qed.

Lemma zero_last_page_witness :
  get_user_watchlist zero_pages "erin" "alice" None init
  = (Return [],
     with_error_message "erin" (ValueError ("No movies found for user: " +:+ "erin"))
       (after_get (watchlist_url "erin") (after_get (profile_url "erin") init))).
Proof.
  apply (zero_last_page zero_pages "erin" "alice" None init (NavigableString "")
           (page_of ["Dune"] ["0"]) 0).
  - reflexivity.
  - reflexivity.
  - vm_compute. reflexivity.
  - reflexivity.
Defined.

(** ** The database update *)

Lemma update_database_unfold w u u2 movies :
  _update_database w u u2 movies
  = (found <- db_do w (GetUser u) ;;
     (if found then ret tt else (db_do w (AddUser u) ;;; ret tt)) ;;;
     add_user_movies w u u2 movies ;;;
     db_do w (UpdateUserSyncTime u) ;;;
     ret tt).
Proof. reflexivity. Qed.

Lemma add_user_movies_Return w u u2 movies s s' :
  add_user_movies w u u2 movies s = (Return tt, s') ->
  trace s' = trace s ++ map (fun m => EvDb (AddUserMovie u u2 (title m))) movies
  /\ db_calls s' = db_calls s + length movies
  /\ sent s' = sent s.
Proof.
  revert s. induction movies as [|m movies IH]; intros s.
  { simpl. unfold ret. intros [= <-]. rewrite app_nil_r. by rewrite Nat.add_0_r. }
  change (add_user_movies w u u2 (m :: movies))
    with (db_do w (AddUserMovie u u2 (title m)) ;;; add_user_movies w u u2 movies).
  unfold bind at 1, db_do at 1.
  destruct (db w (db_calls s) _); [|done].
  intros (Ht & Hd & Hs)%IH. simpl in *.
  rewrite Ht, Hd, Hs, <- app_assoc. repeat split. lia.
Qed.

(** X12: a database update that goes through has looked the user up, added
    them when unknown, made one [add_user_movie] call per record of the
    watchlist, in order and with repeats, and stamped the sync time last;
    it has sent no request. *)
Theorem update_database_trace w u u2 movies s s' :
  _update_database w u u2 movies s = (Return tt, s') ->
  exists found,
    db w (db_calls s) (GetUser u) = DbReturn found
    /\ trace s' = trace s ++ map EvDb (update_database_calls found u u2 movies)
    /\ db_calls s' = db_calls s + length (update_database_calls found u u2 movies)
    /\ sent s' = sent s.
Proof.
  rewrite update_database_unfold. unfold bind at 1, db_do at 1.
  destruct (db w (db_calls s) (GetUser u)) as [found|] eqn:E; [|done].
  exists found. split; [done|]. revert H. unfold bind at 1.
  unfold update_database_calls.
  destruct found.
  - unfold ret at 1. unfold bind at 1.
    destruct (add_user_movies w u u2 movies _) as [[[]|?] s1] eqn:L; [|done].
    apply add_user_movies_Return in L as (Ht & Hd & Hs). simpl in *.
    unfold bind, db_do, ret.
    destruct (db w (db_calls s1) _); [|done]. intros [= <-]. simpl.
    rewrite Ht, Hd, Hs, !map_app, !length_app, length_map. simpl.
    rewrite <- !app_assoc. simpl. repeat split; [by rewrite map_map|lia].
  - unfold bind at 1, db_do at 1. simpl.
    destruct (db w (S (db_calls s)) (AddUser u)); [|done].
    unfold ret at 1. unfold bind at 1.
    destruct (add_user_movies w u u2 movies _) as [[[]|?] s1] eqn:L; [|done].
    apply add_user_movies_Return in L as (Ht & Hd & Hs). simpl in *.
    unfold bind, db_do, ret.
    destruct (db w (db_calls s1) _); [|done]. intros [= <-]. simpl.
    rewrite Ht, Hd, Hs, !map_app, !length_app, length_map. simpl.
    rewrite <- !app_assoc. simpl. repeat split; [by rewrite map_map|lia].
Qed.

Lemma update_database_trace_witness :
  exists found,
    db sample_world 0 (GetUser "alice") = DbReturn found
    /\ trace (snd (_update_database sample_world "alice" "bob" listA init))
       = trace init ++ map EvDb (update_database_calls found "alice" "bob" listA)
    /\ db_calls (snd (_update_database sample_world "alice" "bob" listA init))
       = db_calls init + length (update_database_calls found "alice" "bob" listA)
    /\ sent (snd (_update_database sample_world "alice" "bob" listA init)) = sent init.
Proof.
  apply (update_database_trace sample_world "alice" "bob" listA init).
  vm_compute. reflexivity.
Defined.

(** ** A grid hides what is outside it *)

Lemma length_omap_le {A B} (f : A -> option B) (l : list A) :
  length (omap f l) <= length l.
Proof.
  induction l as [|a l IH]; [done|]. cbn [omap list_omap].
  destruct (f a); simpl; lia.
Qed.

(** X13: once a grid container is found, at most one record per list item of
    the grid is produced: an empty grid gives no record even when the
    page shows posters outside it (the flat scan is not tried). *)
Theorem grid_bounds_records soup film_grid :
  find_film_grid soup = Some film_grid ->
  length (_parse_movie_page soup)
    <= length (find_all "li" "poster-container" film_grid)
  /\ (find_all "li" "poster-container" film_grid = [] -> _parse_movie_page soup = []).
Proof.
  intros Hg. unfold _parse_movie_page. rewrite Hg. split.
  - apply length_omap_le.
  - by intros ->.
Qed.

Lemma grid_bounds_records_witness :
  length (_parse_movie_page empty_grid_page)
    <= length (find_all "li" "poster-container" (Tag "ul" ["poster-list"] ∅ []))
  /\ (find_all "li" "poster-container" (Tag "ul" ["poster-list"] ∅ []) = [] ->
      _parse_movie_page empty_grid_page = []).
Proof.
  apply (grid_bounds_records empty_grid_page (Tag "ul" ["poster-list"] ∅ [])).
  vm_compute. reflexivity.
Defined.

(** The poster outside the empty grid would have been found by the flat
    scan. *)
Example empty_grid_hides_poster :
  _parse_movie_page empty_grid_page = []
  /\ omap _extract_movie_info (find_all "div" "film-poster" empty_grid_page)
     = [MovieInfo_of_title "Dune"].
Proof. vm_compute. done. Qed.

(** ** Printing records *)

Lemma string_length_app (a b : string) :
  String.length (a +:+ b) = String.length a + String.length b.
Proof.
  induction a as [|c a IH]; [done|].
  change (String c a +:+ b) with (String c (a +:+ b)). simpl. by rewrite IH.
Qed.

(** X14: a record prints as its bare title exactly when it has no genres; so
    every record of a retrieved watchlist prints as its title. *)
Theorem str_is_title :
  (forall m, MovieInfo_str m = title m <-> genres m = [])
  /\ (forall w u u2 cb s wl s' m,
        get_user_watchlist w u u2 cb s = (Return wl, s') -> m ∈ wl ->
        MovieInfo_str m = title m).
Proof.
  assert (Hiff : forall m, MovieInfo_str m = title m <-> genres m = []).
  { intros m. unfold MovieInfo_str. destruct (genres m) as [|g gs]; [done|].
    split; [|done]. intros H. apply (f_equal String.length) in H.
    rewrite !string_length_app in H. simpl in H. lia. }
  split; [done|]. intros w u u2 cb s wl s' m Hrun Hm.
  apply Hiff. apply get_user_watchlist_extracted in Hrun.
  rewrite Forall_forall in Hrun. by destruct (Hrun m Hm).
Qed.

Example str_with_genres :
  MovieInfo_str with_genres = "Dune [Sci-Fi, Adventure]".
Proof. reflexivity. Qed.

(** ** Printing and reading page numbers *)

Lemma reads_nil : reads "" [].
Proof. by repeat split. Qed.

Lemma pretty_N_char_decimal d :
  (d < 10)%N ->
  (N_of_ascii (pretty_N_char d) <? 128)%N = true
  /\ decimal (N_of_ascii (pretty_N_char d)) = Some (Z.of_N d)
  /\ is_digit (N_of_ascii (pretty_N_char d)) = true.
Proof.
  intros Hlt.
  assert (Hd : (d = 0 \/ d = 1 \/ d = 2 \/ d = 3 \/ d = 4 \/ d = 5
                \/ d = 6 \/ d = 7 \/ d = 8 \/ d = 9)%N) by lia.
  repeat (destruct Hd as [->|Hd]; [by vm_compute|]). subst. by vm_compute.
Qed.

Lemma reads_cons d s ds :
  (d < 10)%N -> reads s ds -> reads (String (pretty_N_char d) s) (Z.of_N d :: ds).
Proof.
  intros Hd (Hl & Hlen & Hs & Hall).
  destruct (pretty_N_char_decimal d Hd) as (Hascii & Hdec & Hdig).
  assert (Hcp : code_points (String (pretty_N_char d) s)
                = N_of_ascii (pretty_N_char d) :: code_points s).
  { unfold code_points. cbn [list_ascii_of_string map decode_utf8].
    by rewrite Hascii. }
  unfold reads. rewrite Hcp. cbn [leading_decimals forallb length String.length].
  rewrite Hdec, Hdig, Hl, Hlen, Hs, Hall. done.
Qed.

Lemma reads_pretty_N_go (x : N) (s : string) (ds : list Z) :
  reads s ds ->
  exists ds', reads (pretty_N_go x s) ds'
              /\ int_from 0 ds' = int_from (Z.of_N x) ds
              /\ (length ds <= length ds')%nat.
Proof.
  revert s ds. induction (N.lt_wf_0 x) as [x _ IH]; intros s ds Hs.
  destruct (decide (0 < x)%N) as [Hx|Hx].
  - rewrite pretty_N_go_step by done.
    destruct (IH (x `div` 10)%N) with (s := String (pretty_N_char (x `mod` 10)) s)
                                      (ds := Z.of_N (x `mod` 10) :: ds)
      as (ds' & Hr & Hv & Hlen).
    { apply N.div_lt; [done|reflexivity]. }
    { apply reads_cons; [|done]. by apply N.mod_upper_bound. }
    exists ds'. split; [done|]. split; [|simpl in Hlen; lia].
    rewrite Hv. unfold int_from. simpl. f_equal.
    rewrite N2Z.inj_div, N2Z.inj_mod. change (Z.of_N 10) with 10%Z.
    pose proof (Z.div_mod (Z.of_N x) 10). lia.
  - assert (x = 0%N) as -> by lia. rewrite pretty_N_go_0. by exists ds.
Qed.

(** The decimal numeral printed for [n] (as in the page addresses) is a
    string of decimal digits, at least one, whose value is [n]. *)
Lemma reads_pretty (n : N) :
  exists ds, reads (pretty n) ds /\ ds <> [] /\ int_from 0 ds = Z.of_N n.
Proof.
  unfold pretty, pretty_N. case_decide as Hn.
  { subst n. exists [0%Z]. split; [|done]. apply (reads_cons 0 "" []); [done|].
    apply reads_nil. }
  assert (Hx : (0 < n)%N) by lia.
  rewrite pretty_N_go_step by done.
  destruct (reads_pretty_N_go (n `div` 10)
              (String (pretty_N_char (n `mod` 10)) "") [Z.of_N (n `mod` 10)])
    as (ds' & Hr & Hv & Hlen).
  { apply reads_cons; [by apply N.mod_upper_bound|apply reads_nil]. }
  exists ds'. split; [done|]. split.
  { intros ->. simpl in Hlen. lia. }
  rewrite Hv. unfold int_from. simpl.
  rewrite N2Z.inj_div, N2Z.inj_mod. change (Z.of_N 10) with 10%Z.
  pose proof (Z.div_mod (Z.of_N n) 10). lia.
Qed.

(** The numeral of [n] passes [isdigit]; [int] reads it back as [n] when
    it has at most 4300 digits and refuses it otherwise. *)
Lemma pretty_int_round_trip (n : N) :
  isdigit (pretty n) = true
  /\ ((Z.of_nat (String.length (pretty n)) <= int_max_str_digits)%Z ->
      int (pretty n) = Return (Z.of_N n))
  /\ ((int_max_str_digits < Z.of_nat (String.length (pretty n)))%Z ->
      exists e, int (pretty n) = Raise e).
Proof.
  destruct (reads_pretty n) as (ds & (Hl & Hlen & Hs & Hall) & Hne & Hv).
  split; [|split].
  - unfold isdigit. destruct (code_points (pretty n)) as [|c cs]; [|done].
    destruct ds; [done|discriminate].
  - intros Hle. unfold int. cbv zeta. rewrite Hl, Hlen, <- Hs.
    destruct (Z.ltb_spec int_max_str_digits
                (Z.of_nat (String.length (pretty n)))) as [?|_]; [lia|].
    rewrite bool_decide_eq_false_2 by done.
    rewrite Nat.eqb_refl. simpl. by rewrite Hv.
  - intros Hlt. unfold int. cbv zeta. rewrite Hl, <- Hs.
    destruct (Z.ltb_spec int_max_str_digits
                (Z.of_nat (String.length (pretty n)))) as [_|?]; [|lia].
    by eexists.
Qed.

Lemma find_all_tags_anchors nm cl at' labels :
  find_all_tags "a" (Tag nm cl at' (map anchor labels)) = map anchor labels.
Proof.
  unfold find_all_tags. cbn [descendants].
  induction labels as [|l labels IH]; [done|].
  simpl. by rewrite IH.
Qed.

Lemma numerals_read_back (ns : list N) :
  Forall (fun n => (Z.of_nat (String.length (pretty n)) <= int_max_str_digits)%Z) ns ->
  int_labels (map (fun n => anchor (pretty n)) ns) = Return (map Z.of_N ns).
Proof.
  induction 1 as [|n ns Hn _ IH]; [done|].
  destruct (pretty_int_round_trip n) as (Hd & Hi & _).
  change (int_labels (map (fun n => anchor (pretty n)) (n :: ns)))
    with (if isdigit (pretty n) then
            match int (pretty n) with
            | Raise e => Raise e
            | Return k =>
                match int_labels (map (fun n => anchor (pretty n)) ns) with
                | Raise e => Raise e
                | Return ks => Return (k :: ks)
                end
            end
          else int_labels (map (fun n => anchor (pretty n)) ns)).
  by rewrite Hd, (Hi Hn), IH.
Qed.

(** X15: a pagination control whose links are labelled with the numerals of
    [ns], none of them longer than 4300 digits, gives the greatest of
    them as the last page; a numeral of more than 4300 digits among them
    makes the computation raise. *)
Theorem last_page_of_numerals (ns : list N) (others : list node) :
  ns <> [] ->
  (Forall (fun n => (Z.of_nat (String.length (pretty n)) <= int_max_str_digits)%Z) ns ->
   last_page_of (numbered_page ns others) = Return (max_default (map Z.of_N ns) 1)
   /\ (exists n, n ∈ ns /\ last_page_of (numbered_page ns others) = Return (Z.of_N n))
   /\ forall n, n ∈ ns -> (Z.of_N n <= max_default (map Z.of_N ns) 1)%Z)
  /\ (Exists (fun n => (int_max_str_digits < Z.of_nat (String.length (pretty n)))%Z) ns ->
      exists e, last_page_of (numbered_page ns others) = Raise e).
Proof.
  intros Hns.
  assert (Hpg : last_page_of (numbered_page ns others)
                = match int_labels (map (fun n => anchor (pretty n)) ns) with
                  | Raise e => Raise e
                  | Return ks => Return (max_default ks 1)
                  end).
  { unfold last_page_of, numbered_page, page_numbers.
    change (find "div" "pagination" _)
      with (Some (Tag "div" ["pagination"] ∅ (map (fun n => anchor (pretty n)) ns))).
    cbv beta iota. rewrite <- (map_map pretty anchor), find_all_tags_anchors.
    by rewrite map_map. }
  split.
  - intros Hall. rewrite Hpg, numerals_read_back by done.
    destruct (max_default_spec (map Z.of_N ns) 1) as [Hin Hmax]; [by destruct ns|].
    split; [done|]. split.
    + apply list_elem_of_fmap in Hin as (n & Hn & Hin). exists n. split; [done|].
      by rewrite <- Hn.
    + intros n Hn. apply Hmax. apply list_elem_of_fmap. eauto.
  - intros (n & Hn & Hlong)%Exists_exists. rewrite Hpg.
    destruct (pretty_int_round_trip n) as (Hd & _ & Hi).
    destruct (Hi Hlong) as [e He].
    destruct (int_labels_refused (map (fun n => anchor (pretty n)) ns)
                (anchor (pretty n)) e) as [e' ->]; [|done|done|by eexists].
    apply list_elem_of_fmap. eauto.
Qed.

Lemma last_page_of_numerals_witness :
  last_page_of (numbered_page [1; 2; 12; 3]%N [poster "Dune"])
  = Return (max_default (map Z.of_N [1; 2; 12; 3]%N) 1)
  /\ (exists n, n ∈ [1; 2; 12; 3]%N
                /\ last_page_of (numbered_page [1; 2; 12; 3]%N [poster "Dune"])
                   = Return (Z.of_N n))
  /\ forall n, n ∈ [1; 2; 12; 3]%N ->
       (Z.of_N n <= max_default (map Z.of_N [1; 2; 12; 3]%N) 1)%Z.
Proof.
  apply (last_page_of_numerals [1; 2; 12; 3]%N [poster "Dune"]); [discriminate|].
  repeat constructor; by vm_compute.
Defined.

(** * The persistence collaborator *)

Section DatabaseFacts.

Import DatabaseManager.

(** ** Looking rows up *)

Lemma head_filter_elem {A} (P : A -> Prop) `{!forall x, Decision (P x)} l x :
  head (filter P l) = Some x -> x ∈ l /\ P x.
Proof.
  intros Hh. assert (Hx : x ∈ filter P l).
  { destruct (filter P l); simplify_eq/=. by left. }
  apply list_elem_of_filter in Hx. tauto.
Qed.

Lemma head_filter_None {A} (P : A -> Prop) `{!forall x, Decision (P x)} l :
  head (filter P l) = None <-> forall x, x ∈ l -> ~ P x.
Proof.
  split.
  - intros Hh x Hx HP.
    assert (Hin : x ∈ filter P l) by (by apply list_elem_of_filter).
    destruct (filter P l); [by apply elem_of_nil in Hin|done].
  - intros Hh. destruct (filter P l) as [|x l'] eqn:E; [done|].
    assert (Hin : x ∈ filter P l) by (rewrite E; by left).
    apply list_elem_of_filter in Hin as [HP Hx]. by destruct (Hh x Hx).
Qed.

Lemma get_user_Some un d r :
  get_user un d = Some r -> r ∈ users d /\ u_username r = un.
Proof. unfold get_user. intros Hh. by apply head_filter_elem in Hh. Qed.

Lemma get_user_None un d :
  get_user un d = None <-> un ∉ map u_username (users d).
Proof.
  unfold get_user. rewrite head_filter_None. split.
  - intros H (r & -> & Hr)%list_elem_of_fmap. by apply (H r).
  - intros H r Hr Hun. apply H. apply list_elem_of_fmap. eauto.
Qed.

(** With unique keys, the row found is the row that is there. *)
Lemma head_filter_unique {A K} (key : A -> K) `{!EqDecision K} l x :
  NoDup (map key l) -> x ∈ l ->
  head (filter (fun r => key r = key x) l) = Some x.
Proof.
  intros Hnd Hx. induction l as [|a l IH]; [by apply elem_of_nil in Hx|].
  simpl in Hnd. apply NoDup_cons in Hnd as [Ha Hnd].
  rewrite filter_cons. apply elem_of_cons in Hx as [->|Hx].
  - by rewrite decide_True.
  - rewrite decide_False; [by apply IH|].
    intros Heq. apply Ha. rewrite Heq. apply list_elem_of_fmap. eauto.
Qed.

(** ** The invariant *)

Lemma consistent_create_tables : consistent create_tables.
Proof. repeat split; simpl; constructor. Qed.

Lemma NoDup_snoc {A} (l : list A) x : NoDup l -> x ∉ l -> NoDup (l ++ [x]).
Proof.
  intros Hl Hx. apply NoDup_app. split; [done|]. split.
  - intros y Hy ->%list_elem_of_singleton. done.
  - apply NoDup_singleton.
Qed.

Lemma fresh_id {A} (id : A -> Z) (l : list A) seq :
  Forall (fun r => (id r <= seq)%Z) l -> (seq + 1)%Z ∉ map id l.
Proof.
  intros Hl (r & Heq & Hr)%list_elem_of_fmap.
  rewrite Forall_forall in Hl. specialize (Hl r Hr). lia.
Qed.

Lemma add_user_consistent un d :
  consistent d -> consistent (snd (add_user un d)).
Proof.
  intros [(Hn & Hi & Hs) Hm]. unfold add_user. case_decide as Hin; [done|].
  split; [|done]. unfold users_consistent. simpl. rewrite !map_app. simpl. repeat split.
  - by apply NoDup_snoc.
  - apply NoDup_snoc; [done|]. by apply fresh_id.
  - apply Forall_app. split.
    + eapply Forall_impl; [exact Hs|]. simpl. intros; lia.
    + constructor; [simpl; lia|constructor].
Qed.

Lemma add_movie_consistent blocked t d :
  consistent d -> consistent (snd (add_movie blocked t d)).
Proof.
  intros [Hu (Hn & Hi & Hs)]. unfold add_movie.
  destruct (head _) as [m|] eqn:E; [done|]. destruct blocked; [done|].
  split; [done|]. unfold movies_consistent. simpl. rewrite !map_app. simpl. repeat split.
  - apply NoDup_snoc; [done|]. intros (r & Heq & Hr)%list_elem_of_fmap.
    rewrite head_filter_None in E. by apply (E r).
  - apply NoDup_snoc; [done|]. by apply fresh_id.
  - apply Forall_app. split.
    + eapply Forall_impl; [exact Hs|]. simpl. intros; lia.
    + constructor; [simpl; lia|constructor].
Qed.

Lemma get_or_add_user_consistent un d :
  consistent d -> consistent (snd (get_or_add_user un d)).
Proof.
  intros H. unfold get_or_add_user. destruct (get_user un d); [done|].
  by apply add_user_consistent.
Qed.

Lemma add_user_movie_consistent now un un2 t d :
  consistent d -> consistent (snd (add_user_movie now un un2 t d)).
Proof.
  intros H. unfold add_user_movie.
  pose proof (get_or_add_user_consistent un d H) as H1.
  destruct (get_or_add_user un d) as [[user|e] d1]; [|done]. simpl in H1.
  pose proof (get_or_add_user_consistent un2 d1 H1) as H2.
  destruct (get_or_add_user un2 d1) as [[user2|e] d2]; [|done]. simpl in H2.
  pose proof (add_movie_consistent false t d2 H2) as H3.
  destruct (add_movie false t d2) as [[movie|e] d3]; done.
Qed.

Lemma insert_common_movies_consistent blocked now id1 id2 l d :
  consistent d -> consistent (snd (insert_common_movies blocked now id1 id2 l d)).
Proof.
  revert d. induction l as [|m l IH]; intros d H; [done|]. simpl.
  pose proof (add_movie_consistent blocked (title m) d H) as H1.
  destruct (add_movie blocked (title m) d) as [[movie|e] d1]; [|done].
  apply IH. exact H1.
Qed.

Lemma save_common_movies_consistent blocked now un1 un2 l d :
  consistent d -> consistent (snd (save_common_movies blocked now un1 un2 l d)).
Proof.
  intros H. unfold save_common_movies.
  destruct (get_user un1 d) as [user1|]; [|done].
  destruct (get_user un2 d) as [user2|]; [|done].
  match goal with
  | |- context [insert_common_movies _ _ _ _ _ ?d0] =>
      pose proof (insert_common_movies_consistent blocked now (u_id user1)
                    (u_id user2) l d0 H) as H1;
      destruct (insert_common_movies blocked now (u_id user1) (u_id user2) l d0)
        as [[[]|e] d1]
  end; done.
Qed.

Lemma update_user_sync_time_consistent now un d :
  consistent d -> consistent (update_user_sync_time now un d).
Proof.
  intros [(Hn & Hi & Hs) Hm]. split; [|done]. unfold users_consistent. simpl.
  assert (Hmap : forall f : user_row -> user_row,
            (forall r, u_username (f r) = u_username r /\ u_id (f r) = u_id r) ->
            map u_username (map f (users d)) = map u_username (users d)
            /\ map u_id (map f (users d)) = map u_id (users d)).
  { intros f Hf. rewrite !map_map. split; apply map_ext; intros r; apply Hf. }
  destruct (Hmap (fun r => if decide (u_username r = un)
                           then {| u_id := u_id r; u_username := u_username r;
                                   u_last_sync := Some now |} else r)) as [E1 E2].
  { intros r. by case_decide. }
  rewrite E1, E2. repeat split; try done.
  apply Forall_fmap. eapply Forall_impl; [exact Hs|].
  intros r Hr. simpl. by case_decide.
Qed.

(** X16: from a new file on, every method keeps usernames, user ids, movie
    titles and movie ids unique, whether it returns or raises. *)
Theorem methods_keep_consistent :
  consistent create_tables
  /\ forall d, consistent d ->
       (forall un, consistent (snd (add_user un d)))
       /\ (forall blocked t, consistent (snd (add_movie blocked t d)))
       /\ (forall now un un2 t, consistent (snd (add_user_movie now un un2 t d)))
       /\ (forall blocked now un1 un2 l,
             consistent (snd (save_common_movies blocked now un1 un2 l d)))
       /\ (forall now un, consistent (update_user_sync_time now un d)).
Proof.
  split; [apply consistent_create_tables|]. intros d H.
  split; [intros; by apply add_user_consistent|].
  split; [intros; by apply add_movie_consistent|].
  split; [intros; by apply add_user_movie_consistent|].
  split; [intros; by apply save_common_movies_consistent|].
  intros; by apply update_user_sync_time_consistent.
Qed.

End DatabaseFacts.

Section DatabaseRoundTrips.

Import DatabaseManager.

(** ** Users *)

Lemma get_user_snoc un d r seq :
  get_user un {| users := users d ++ [r]; movies := movies d;
                 user_movies := user_movies d; common_movies := common_movies d;
                 users_seq := seq; movies_seq := movies_seq d;
                 user_movies_seq := user_movies_seq d;
                 common_movies_seq := common_movies_seq d |}
  = match get_user un d with
    | Some r' => Some r'
    | None => if decide (u_username r = un) then Some r else None
    end.
Proof.
  unfold get_user. simpl. rewrite filter_app.
  destruct (filter (fun r0 => u_username r0 = un) (users d)) as [|r' l]; [|done].
  simpl. rewrite filter_cons, filter_nil. by case_decide.
Qed.

(** On the tables: adding a user that is not there makes [get_user] find
    them, with a new id, and changes the answer for no other username;
    adding a user that is there raises and changes no table. *)
Lemma add_user_tables un d :
  (get_user un d = None ->
   exists r d',
     add_user un d = (Ok r, d')
     /\ get_user un d' = Some r
     /\ u_username r = un /\ u_id r = (users_seq d + 1)%Z
     /\ forall un', un' <> un -> get_user un' d' = get_user un' d)
  /\ (is_Some (get_user un d) -> add_user un d = (Error IntegrityError, d)).
Proof.
  split.
  - intros Hnone. unfold add_user.
    rewrite decide_False by (by apply get_user_None).
    eexists _, _. split; [reflexivity|]. rewrite get_user_snoc, Hnone. simpl.
    rewrite decide_True by done. repeat split.
    intros un' Hne. rewrite get_user_snoc. simpl.
    destruct (get_user un' d); [done|]. by rewrite decide_False.
  - intros [r Hr]. unfold add_user. rewrite decide_True; [done|].
    apply get_user_Some in Hr as [Hin <-]. apply list_elem_of_fmap. eauto.
Qed.

(** ** Movies *)


Lemma add_movie_false_Ok t d :
  exists m d1,
    add_movie false t d = (Ok m, d1) /\ m_title m = t /\ m ∈ movies d1.
Proof.
  unfold add_movie.
  destruct (head (filter (fun r => m_title r = t) (movies d))) as [m|] eqn:E.
  - exists m, d. by pose proof (head_filter_elem _ _ _ E) as [Hin Ht].
  - eexists _, _. split; [reflexivity|]. simpl. split; [done|].
    apply elem_of_app. right. by left.
Qed.

Lemma get_or_add_user_Ok un d :
  exists r d1,
    get_or_add_user un d = (Ok r, d1)
    /\ r ∈ users d1 /\ u_username r = un
    /\ users d `prefix_of` users d1
    /\ movies d1 = movies d /\ user_movies d1 = user_movies d
    /\ common_movies d1 = common_movies d.
Proof.
  unfold get_or_add_user. destruct (get_user un d) as [r|] eqn:E.
  - apply get_user_Some in E as [Hin Hun]. by exists r, d.
  - unfold add_user. rewrite decide_False by (by apply get_user_None).
    eexists _, _. split; [reflexivity|]. simpl.
    split; [apply elem_of_app; right; by left|].
    repeat split. by apply prefix_app_r.
Qed.

(** ** A user's movies *)

Lemma elem_of_get_user_movies un d row :
  row ∈ get_user_movies un d <->
  exists m um u,
    m ∈ movies d /\ um ∈ user_movies d /\ u ∈ users d
    /\ um_movie_id um = m_id m /\ um_user_id um = u_id u /\ u_username u = un
    /\ row = (m_id m, m_title m).
Proof.
  unfold get_user_movies. rewrite list_elem_of_bind. split.
  - intros (m & (um & (u & Hrow & Hu)%list_elem_of_bind & Hum)%list_elem_of_bind & Hm).
    case_decide as Hc; [|by apply elem_of_nil in Hrow].
    apply list_elem_of_singleton in Hrow. exists m, um, u. tauto.
  - intros (m & um & u & Hm & Hum & Hu & H1 & H2 & H3 & ->).
    exists m. split; [|done]. apply list_elem_of_bind. exists um. split; [|done].
    apply list_elem_of_bind. exists u. split; [|done].
    rewrite decide_True by done. by left.
Qed.

Lemma get_user_is_Some un d :
  is_Some (get_user un d) <-> un ∈ map u_username (users d).
Proof.
  destruct (get_user un d) as [r|] eqn:E.
  - apply get_user_Some in E as [Hin <-]. split; [|done].
    intros _. apply list_elem_of_fmap. eauto.
  - apply get_user_None in E. split; [by intros [? ?]|done].
Qed.

Lemma add_user_movie_Ok now un un2 t d :
  exists d',
    add_user_movie now un un2 t d = (Ok tt, d')
    /\ users d ⊆ users d' /\ movies d ⊆ movies d'
    /\ user_movies d ⊆ user_movies d'
    /\ common_movies d' = common_movies d
    /\ is_Some (get_user un d') /\ is_Some (get_user un2 d')
    /\ t ∈ map m_title (movies d')
    /\ t ∈ row_titles (get_user_movies un d').
Proof.
  unfold add_user_movie.
  destruct (get_or_add_user_Ok un d)
    as (user & d1 & -> & Hu1 & Hun1 & Hp1 & Hm1 & Hum1 & Hc1).
  destruct (get_or_add_user_Ok un2 d1)
    as (user2 & d2 & -> & Hu2 & Hun2 & Hp2 & Hm2 & Hum2 & Hc2).
  destruct (add_movie_false_Ok t d2) as (movie & d3 & Hadd & Ht & Hmv).
  rewrite Hadd. eexists. split; [reflexivity|].
  assert (Husers : users d3 = users d2 /\ user_movies d3 = user_movies d2
                   /\ common_movies d3 = common_movies d2
                   /\ movies d2 `prefix_of` movies d3).
  { revert Hadd. unfold add_movie. destruct (head _); [by intros [= _ <-]|].
    intros [= _ <-]. simpl. repeat split. by apply prefix_app_r. }
  destruct Husers as (Hus3 & Hum3 & Hc3 & Hp3). simpl.
  assert (Hu1' : user ∈ users d2).
  { destruct Hp2 as [k ->]. apply elem_of_app. by left. }
  split.
  { rewrite Hus3. intros r Hr. destruct Hp2 as [k ->]. apply elem_of_app. left.
    destruct Hp1 as [k' ->]. apply elem_of_app. by left. }
  split.
  { intros r Hr. destruct Hp3 as [k ->]. apply elem_of_app. left.
    by rewrite Hm2, Hm1. }
  split.
  { intros r Hr. apply elem_of_app. left. by rewrite Hum3, Hum2, Hum1. }
  split; [congruence|].
  split.
  { apply get_user_is_Some. simpl. rewrite Hus3, <- Hun1.
    apply list_elem_of_fmap. eauto. }
  split.
  { apply get_user_is_Some. simpl. rewrite Hus3, <- Hun2.
    apply list_elem_of_fmap. eauto. }
  split.
  { rewrite <- Ht. apply list_elem_of_fmap. eauto. }
  unfold row_titles. apply list_elem_of_fmap.
  exists (m_id movie, m_title movie). split; [done|].
  apply elem_of_get_user_movies. eexists movie, _, user. simpl.
  split; [done|]. split; [apply elem_of_app; right; by left|].
  split; [by rewrite Hus3|]. done.
Qed.

(** Queries only gain rows when the tables only gain rows. *)
Lemma get_user_movies_subseteq un d d' row :
  users d ⊆ users d' -> movies d ⊆ movies d' -> user_movies d ⊆ user_movies d' ->
  row ∈ get_user_movies un d -> row ∈ get_user_movies un d'.
Proof.
  intros Hu Hm Hum (m & um & u & ? & ? & ? & ? & ? & ? & ->)%elem_of_get_user_movies.
  apply elem_of_get_user_movies. exists m, um, u. repeat split; auto.
Qed.

(** ** The write lock *)

(** On a file that no connection holds locked, the users are looked up
    or created as on the tables, and the file stays unlocked. *)
Lemma file_get_or_add_user un d :
  exists user d1,
    get_or_add_user un d = (Ok user, d1)
    /\ DatabaseFile.get_or_add_user un (DatabaseFile.unlocked d)
       = (Ok user, DatabaseFile.unlocked d1).
Proof.
  unfold DatabaseFile.get_or_add_user, get_or_add_user, DatabaseFile.get_user.
  cbn [DatabaseFile.tables DatabaseFile.unlocked].
  destruct (get_user un d) as [r|] eqn:E; [by eexists _, _|].
  unfold DatabaseFile.add_user.
  cbn [DatabaseFile.tables DatabaseFile.write_locked DatabaseFile.unlocked].
  unfold add_user. rewrite decide_False by (by apply get_user_None).
  by eexists _, _.
Qed.

Lemma unlocked_add_user_movie now un un2 t d :
  DatabaseFile.add_user_movie now un un2 t (DatabaseFile.unlocked d)
  = (fst (add_user_movie now un un2 t d),
     DatabaseFile.unlocked (snd (add_user_movie now un un2 t d))).
Proof.
  unfold DatabaseFile.add_user_movie, add_user_movie.
  destruct (file_get_or_add_user un d) as (user & d1 & -> & ->).
  destruct (file_get_or_add_user un2 d1) as (user2 & d2 & -> & ->).
  unfold DatabaseFile.add_movie.
  cbn [DatabaseFile.tables DatabaseFile.write_locked DatabaseFile.unlocked orb].
  by destruct (add_movie false t d2) as [[movie|e] d3].
Qed.

(** On a locked file the users that are there are found and the others
    cannot be created. *)
Lemma locked_get_or_add_user un d :
  DatabaseFile.get_or_add_user un (DatabaseFile.locked d)
  = match get_user un d with
    | Some user => (Ok user, DatabaseFile.locked d)
    | None => (Error OperationalError, DatabaseFile.locked d)
    end.
Proof.
  unfold DatabaseFile.get_or_add_user, DatabaseFile.get_user.
  cbn [DatabaseFile.tables DatabaseFile.locked].
  by destruct (get_user un d).
Qed.

Lemma locked_add_movie blocked t d :
  DatabaseFile.add_movie blocked t (DatabaseFile.locked d)
  = match head (filter (fun r => m_title r = t) (movies d)) with
    | Some movie => (Ok movie, DatabaseFile.locked d)
    | None => (Error OperationalError, DatabaseFile.locked d)
    end.
Proof.
  unfold DatabaseFile.add_movie, add_movie.
  cbn [DatabaseFile.tables DatabaseFile.write_locked DatabaseFile.locked].
  rewrite orb_true_r.
  by destruct (head (filter (fun r => m_title r = t) (movies d))).
Qed.

(** Every path through [add_user_movie] writes, and on a locked file the
    first write raises. *)
Lemma locked_add_user_movie now un un2 t d :
  DatabaseFile.add_user_movie now un un2 t (DatabaseFile.locked d)
  = (Error OperationalError, DatabaseFile.locked d).
Proof.
  unfold DatabaseFile.add_user_movie. rewrite locked_get_or_add_user.
  destruct (get_user un d) as [user|]; [|done].
  rewrite locked_get_or_add_user.
  destruct (get_user un2 d) as [user2|]; [|done].
  rewrite locked_add_movie.
  by destruct (head (filter (fun r => m_title r = t) (movies d))).
Qed.

(** X17: on a file that no connection holds locked, adding a user that is
    not there makes [get_user] find them, with a new id, and changes the
    answer for no other username. Adding a user that is there raises and
    leaves the tables as they are, but not the file: the connection that
    [add_user] did not close holds the write lock, so that reads still
    answer and every write raises, until that connection is collected. *)
Theorem add_user_get_user un d :
  (get_user un d = None ->
   exists r d',
     DatabaseFile.add_user un (DatabaseFile.unlocked d)
     = (Ok r, DatabaseFile.unlocked d')
     /\ get_user un d' = Some r
     /\ u_username r = un /\ u_id r = (users_seq d + 1)%Z
     /\ forall un', un' <> un -> get_user un' d' = get_user un' d)
  /\ (is_Some (get_user un d) ->
      let f := DatabaseFile.locked d in
      DatabaseFile.add_user un (DatabaseFile.unlocked d) = (Error IntegrityError, f)
      /\ (forall un', DatabaseFile.get_user un' f = get_user un' d)
      /\ (forall un', DatabaseFile.add_user un' f = (Error OperationalError, f))
      /\ (forall blocked t, t ∉ map m_title (movies d) ->
            DatabaseFile.add_movie blocked t f = (Error OperationalError, f))
      /\ (forall now u u2 t,
            DatabaseFile.add_user_movie now u u2 t f = (Error OperationalError, f))
      /\ (forall now u,
            DatabaseFile.update_user_sync_time now u f = (Error OperationalError, f))
      /\ (forall blocked now u1 u2 l,
            is_Some (get_user u1 d) -> is_Some (get_user u2 d) ->
            DatabaseFile.save_common_movies blocked now u1 u2 l f
            = (Error OperationalError, f))
      /\ DatabaseFile.collect f = DatabaseFile.unlocked d).
Proof.
  split.
  - intros Hnone. destruct (add_user_tables un d) as [Hnew _].
    destruct (Hnew Hnone) as (r & d' & Hadd & Hrest).
    exists r, d'. split; [|done].
    unfold DatabaseFile.add_user.
    cbn [DatabaseFile.tables DatabaseFile.write_locked DatabaseFile.unlocked].
    by rewrite Hadd.
  - intros Hsome f. destruct (add_user_tables un d) as [_ Hold].
    split.
    { unfold DatabaseFile.add_user.
      cbn [DatabaseFile.tables DatabaseFile.write_locked DatabaseFile.unlocked].
      by rewrite (Hold Hsome). }
    split; [done|]. split; [done|]. split.
    { intros blocked t Ht. subst f. rewrite locked_add_movie.
      destruct (head (filter (fun r => m_title r = t) (movies d))) as [m|] eqn:E;
        [|done].
      destruct (head_filter_elem _ _ _ E) as [Hin Hm]. destruct Ht.
      apply list_elem_of_fmap. eauto. }
    split; [intros; apply locked_add_user_movie|].
    split; [done|]. split; [|done].
    intros blocked now u1 u2 l [r1 H1] [r2 H2].
    unfold DatabaseFile.save_common_movies, DatabaseFile.get_user. subst f.
    cbn [DatabaseFile.tables DatabaseFile.write_locked DatabaseFile.locked].
    by rewrite H1, H2.
Qed.

(** After a refused [add_user] on the sample database: the tables are
    as before, nothing can be written, and after the collection of the
    connection the same call goes through. *)
Example refused_add_user :
  let f := DatabaseFile.add_user "alice" (DatabaseFile.unlocked sample_db) in
  fst f = Error IntegrityError
  /\ snd f = DatabaseFile.locked sample_db
  /\ fst (DatabaseFile.add_user_movie 200 "alice" "bob" "Arrival" (snd f))
     = Error OperationalError
  /\ fst (DatabaseFile.add_user_movie 200 "alice" "bob" "Arrival"
            (DatabaseFile.collect (snd f)))
     = Ok tt.
Proof. vm_compute. by repeat split. Qed.

(** X19: on a file that no connection holds locked [add_user_movie] never
    raises: it creates whichever of the two users and the movie is
    missing; afterwards both users exist and the title is among the first
    user's movies, no row a query returned before is lost, and the file
    is not locked. On a file whose write lock a connection left open
    holds, it raises and changes nothing. *)
Theorem add_user_movie_get_user_movies now un un2 t d :
  (exists d',
     DatabaseFile.add_user_movie now un un2 t (DatabaseFile.unlocked d)
     = (Ok tt, DatabaseFile.unlocked d')
     /\ is_Some (get_user un d') /\ is_Some (get_user un2 d')
     /\ t ∈ row_titles (get_user_movies un d')
     /\ forall un0 row, row ∈ get_user_movies un0 d -> row ∈ get_user_movies un0 d')
  /\ DatabaseFile.add_user_movie now un un2 t (DatabaseFile.locked d)
     = (Error OperationalError, DatabaseFile.locked d).
Proof.
  split; [|apply locked_add_user_movie].
  destruct (add_user_movie_Ok now un un2 t d)
    as (d' & Hrun & Hu & Hm & Hum & _ & H1 & H2 & _ & Ht).
  exists d'. split.
  { by rewrite unlocked_add_user_movie, Hrun. }
  repeat split; try done.
  intros un0 row. by apply get_user_movies_subseteq.
Qed.

End DatabaseRoundTrips.

Section DatabaseComparisons.

Import DatabaseManager.

(** ** Saving and loading a comparison *)

Lemma list_bind_ext_elem {A B} (f g : A -> list B) (l : list A) :
  (forall x, x ∈ l -> f x = g x) -> l ≫= f = l ≫= g.
Proof.
  induction l as [|a l IH]; intros Hfg; [done|].
  rewrite !bind_cons, (Hfg a) by (by left).
  f_equal. apply IH. intros x Hx. apply Hfg. by right.
Qed.

(** Selecting from [ts], for each of the distinct keys [ks] in turn, the
    elements equal to that key only reorders [ts]. *)
Lemma bind_filter_Permutation (ks ts : list string) :
  NoDup ks -> (forall t, t ∈ ts -> t ∈ ks) ->
  (k ← ks; filter (fun t => t = k) ts) ≡ₚ ts.
Proof.
  intros Hnd. revert ts. induction Hnd as [|k ks Hk Hnd IH]; intros ts Hts.
  { destruct ts as [|t ts]; [done|].
    assert (Hin : t ∈ @nil string) by (apply Hts; by left).
    by apply elem_of_nil in Hin. }
  rewrite bind_cons.
  rewrite (list_bind_ext_elem _ (fun k' => filter (fun t => t = k')
                                   (filter (fun t => t <> k) ts))).
  - rewrite IH.
    + apply filter_app_complement.
    + intros t [Hne Ht]%list_elem_of_filter.
      apply Hts in Ht. by apply elem_of_cons in Ht as [->|Ht].
  - intros k' Hk'. rewrite list_filter_filter. apply list_filter_iff.
    intros t. split; [|tauto]. intros ->. split; [done|]. by intros ->.
Qed.

Lemma add_movie_Ok blocked t d m d1 :
  add_movie blocked t d = (Ok m, d1) ->
  m ∈ movies d1 /\ m_title m = t
  /\ users d1 = users d /\ common_movies d1 = common_movies d
  /\ user_movies d1 = user_movies d
  /\ movies d `prefix_of` movies d1.
Proof.
  unfold add_movie.
  destruct (head (filter (fun r => m_title r = t) (movies d))) as [m'|] eqn:E.
  - intros [= <- <-]. by pose proof (head_filter_elem _ _ _ E) as [Hin Ht].
  - destruct blocked; [done|]. intros [= <- <-]. simpl.
    repeat split; [apply elem_of_app; right; by left|by apply prefix_app_r].
Qed.

(** What the loop of [save_common_movies] has done when it ends without
    an error: one new row per record, for this pair of users and for the
    movie of that title. *)
Lemma insert_common_movies_Ok blocked now id1 id2 l d d' :
  consistent d ->
  insert_common_movies blocked now id1 id2 l d = (Ok tt, d') ->
  consistent d' /\ users d' = users d /\ user_movies d' = user_movies d
  /\ movies d `prefix_of` movies d'
  /\ exists rows,
       common_movies d' = common_movies d ++ rows
       /\ Forall2 (fun mv r =>
                     cm_user1_id r = id1 /\ cm_user2_id r = id2
                     /\ exists m, m ∈ movies d' /\ m_title m = title mv
                                  /\ m_id m = cm_movie_id r) l rows.
Proof.
  revert d. induction l as [|mv l IH]; intros d Hc; simpl.
  { intros [= <-]. split; [done|]. split; [done|]. split; [done|]. split; [done|].
    exists []. split; [by rewrite app_nil_r|]. constructor. }
  pose proof (add_movie_consistent blocked (title mv) d Hc) as Hc1.
  destruct (add_movie blocked (title mv) d) as [[movie|e] d1] eqn:E; [|done].
  apply add_movie_Ok in E as (Hin & Ht & Hu & Hcm & Hum & Hp). simpl in Hc1.
  intros (Hc' & Hu' & Hum' & Hp' & rows & Hrows & Hall)%IH; [|exact Hc1].
  simpl in *. split; [done|]. split; [congruence|]. split; [congruence|].
  split; [by etrans|].
  eexists (_ :: rows). split.
  - rewrite Hrows, Hcm, <- app_assoc. reflexivity.
  - constructor; [|done]. simpl. repeat split. exists movie.
    split; [|done]. destruct Hp' as [k ->]. apply elem_of_app. by left.
Qed.

Lemma insert_common_movies_succeeds blocked now id1 id2 l d :
  (blocked = true -> forall mv, mv ∈ l -> title mv ∈ map m_title (movies d)) ->
  exists d', insert_common_movies blocked now id1 id2 l d = (Ok tt, d').
Proof.
  revert d. induction l as [|mv l IH]; intros d Hl; simpl; [eauto|].
  assert (Hadd : exists movie d1, add_movie blocked (title mv) d = (Ok movie, d1)).
  { unfold add_movie.
    destruct (head (filter (fun r => m_title r = title mv) (movies d))) eqn:E;
      [eauto|].
    destruct blocked; [|eauto]. exfalso.
    rewrite head_filter_None in E.
    assert (Hin : title mv ∈ map m_title (movies d)) by (apply Hl; [done|by left]).
    apply list_elem_of_fmap in Hin as (r & Hr & Hin).
    by apply (E r). }
  destruct Hadd as (movie & d1 & Hadd). rewrite Hadd.
  apply add_movie_Ok in Hadd as (_ & _ & _ & _ & _ & Hp).
  apply IH. intros Hb mv' Hmv'. simpl.
  assert (Hin : title mv' ∈ map m_title (movies d)) by (apply Hl; [done|by right]).
  apply list_elem_of_fmap in Hin as (r & Hr & Hin).
  apply list_elem_of_fmap. exists r. split; [done|].
  destruct Hp as [k ->]. apply elem_of_app. by left.
Qed.

Lemma NoDup_map_inj {A K} (key : A -> K) (l : list A) x y :
  NoDup (map key l) -> x ∈ l -> y ∈ l -> key x = key y -> x = y.
Proof.
  intros Hnd Hx Hy Hxy. induction l as [|a l IH]; [by apply elem_of_nil in Hx|].
  simpl in Hnd. apply NoDup_cons in Hnd as [Ha Hnd].
  apply elem_of_cons in Hx as [->|Hx]; apply elem_of_cons in Hy as [->|Hy];
    try done.
  - destruct Ha. rewrite Hxy. apply list_elem_of_fmap. eauto.
  - destruct Ha. rewrite <- Hxy. apply list_elem_of_fmap. eauto.
  - by apply IH.
Qed.

(** The query of [get_common_movies_from_db] on a table made of rows of
    other pairs followed by the rows of a saved comparison. *)
Lemma load_saved_rows (mvs : list movie_row) id1 id2 kept rows (l : list MovieInfo) :
  NoDup (map m_title mvs) -> NoDup (map m_id mvs) ->
  Forall (fun r => ~ of_pair id1 id2 r) kept ->
  Forall2 (fun mv r =>
             cm_user1_id r = id1 /\ cm_user2_id r = id2
             /\ exists m, m ∈ mvs /\ m_title m = title mv
                          /\ m_id m = cm_movie_id r) l rows ->
  row_titles (m ← mvs;
              cm ← kept ++ rows;
              if decide (cm_movie_id cm = m_id m /\ of_pair id1 id2 cm)
              then [(m_id m, m_title m)] else [])
  ≡ₚ map title l.
Proof.
  intros Hnt Hni Hkept Hrows.
  assert (Hinner : forall m, m ∈ mvs ->
            row_titles (cm ← kept ++ rows;
                        if decide (cm_movie_id cm = m_id m /\ of_pair id1 id2 cm)
                        then [(m_id m, m_title m)] else [])
            = filter (fun t => t = m_title m) (map title l)).
  { intros m Hm. rewrite bind_app.
    assert (Hk : (cm ← kept;
                  if decide (cm_movie_id cm = m_id m /\ of_pair id1 id2 cm)
                  then [(m_id m, m_title m)] else []) = []).
    { clear Hrows. induction Hkept as [|r kept Hr _ IH]; [done|].
      rewrite bind_cons, IH, decide_False by tauto. done. }
    rewrite Hk. simpl. clear Hk Hkept.
    induction Hrows as [|mv r l rows (H1 & H2 & m' & Hm' & Ht' & Hi') _ IH]; [done|].
    rewrite bind_cons. unfold row_titles in *. rewrite map_app, IH. simpl.
    rewrite filter_cons.
    assert (Hiff : cm_movie_id r = m_id m <-> title mv = m_title m).
    { split.
      - intros Heq. rewrite <- Ht'. f_equal.
        apply (NoDup_map_inj m_id mvs); [done..|congruence].
      - intros Heq. rewrite <- Hi'. f_equal.
        apply (NoDup_map_inj m_title mvs); [done..|congruence]. }
    destruct (decide (title mv = m_title m)) as [Heq|Hne].
    - rewrite decide_True; [simpl; by rewrite Heq|].
      split; [by apply Hiff|]. by left.
    - rewrite decide_False; [done|]. intros [Hid _]. by apply Hne, Hiff. }
  unfold row_titles in *. 
  assert (Heq : forall ms : list movie_row, (forall m, m ∈ ms -> m ∈ mvs) ->
            map snd (m ← ms;
                     cm ← kept ++ rows;
                     if decide (cm_movie_id cm = m_id m /\ of_pair id1 id2 cm)
                     then [(m_id m, m_title m)] else [])
            = (k ← map m_title ms; filter (fun t => t = k) (map title l))).
  { induction ms as [|m ms IH]; intros Hms; [done|].
    rewrite bind_cons, map_app, Hinner by (apply Hms; by left).
    change (map m_title (m :: ms)) with (m_title m :: map m_title ms).
    rewrite bind_cons. f_equal. apply IH. intros m' Hm'. apply Hms. by right. }
  rewrite Heq by done.
  apply bind_filter_Permutation; [done|].
  intros t (mv & -> & Hmv)%list_elem_of_fmap.
    apply list_elem_of_lookup in Hmv as [i Hi].
    destruct (Forall2_lookup_l _ _ _ _ _ Hrows Hi) as (r & _ & _ & _ & m & Hm & Ht & _).
    rewrite <- Ht. apply list_elem_of_fmap. eauto.
Qed.

(** The query does not depend on the order of the two usernames. *)
Lemma get_common_movies_from_db_comm un1 un2 d :
  get_common_movies_from_db un2 un1 d = get_common_movies_from_db un1 un2 d.
Proof.
  unfold get_common_movies_from_db.
  destruct (get_user un1 d) as [user1|], (get_user un2 d) as [user2|]; try done.
  apply list_bind_ext; [|done]. intros m.
  apply list_bind_ext; [|done]. intros cm.
  apply decide_ext. unfold of_pair. tauto.
Qed.

End DatabaseComparisons.

Section DatabaseSave.

Import DatabaseManager.

Lemma get_user_users un d d' : users d' = users d -> get_user un d' = get_user un d.
Proof. unfold get_user. by intros ->. Qed.

Lemma save_common_movies_Ok blocked now un1 un2 l d user1 user2 :
  consistent d ->
  get_user un1 d = Some user1 -> get_user un2 d = Some user2 ->
  (blocked = true -> forall mv, mv ∈ l -> title mv ∈ map m_title (movies d)) ->
  exists d',
    save_common_movies blocked now un1 un2 l d = (Ok true, d')
    /\ consistent d'
    /\ row_titles (get_common_movies_from_db un1 un2 d') ≡ₚ map title l
    /\ users d' = users d /\ user_movies d' = user_movies d
    /\ movies d ⊆ movies d'.
Proof.
  intros Hc H1 H2 Hl. unfold save_common_movies. rewrite H1, H2.
  set (d0 := {| users := users d; movies := movies d;
                user_movies := user_movies d;
                common_movies := filter (fun r => ~ of_pair (u_id user1) (u_id user2) r)
                                        (common_movies d);
                users_seq := users_seq d; movies_seq := movies_seq d;
                user_movies_seq := user_movies_seq d;
                common_movies_seq := common_movies_seq d |}).
  destruct (insert_common_movies_succeeds blocked now (u_id user1) (u_id user2) l d0 Hl)
    as [d' Hrun].
  rewrite Hrun. exists d'. split; [done|].
  apply insert_common_movies_Ok in Hrun
    as (Hc' & Hu & Hum & Hp & rows & Hrows & Hall); [|exact Hc].
  simpl in Hu, Hum, Hrows, Hp. split; [done|]. split.
  - unfold get_common_movies_from_db.
    rewrite !(get_user_users _ d d' Hu), H1, H2, Hrows.
    destruct Hc' as [_ (Hnt & Hni & _)].
    apply load_saved_rows; try done.
    apply Forall_forall. by intros r [Hr _]%list_elem_of_filter.
  - repeat split; try done. intros r Hr. destruct Hp as [k ->].
    apply elem_of_app. by left.
Qed.



(** With the nested insert blocked, nothing but [common_movies] changes
    in the loop of [save_common_movies], and a title that is not in
    [movies] stops it with [OperationalError]. *)
Lemma insert_common_movies_blocked now id1 id2 l d o d' :
  insert_common_movies true now id1 id2 l d = (o, d') ->
  users d' = users d /\ movies d' = movies d /\ user_movies d' = user_movies d
  /\ users_seq d' = users_seq d /\ movies_seq d' = movies_seq d
  /\ user_movies_seq d' = user_movies_seq d
  /\ ((exists mv, mv ∈ l /\ title mv ∉ map m_title (movies d)) ->
      o = Error OperationalError).
Proof.
  revert d. induction l as [|mv l IH]; intros d; simpl.
  { intros [= <- <-]. repeat split. intros (mv & Hmv & _). by apply elem_of_nil in Hmv. }
  unfold add_movie.
  destruct (head (filter (fun r => m_title r = title mv) (movies d))) as [m|] eqn:E.
  - intros (H1 & H2 & H3 & H4 & H5 & H6 & H7)%IH. simpl in *.
    repeat split; try done. intros (mv' & Hmv' & Hmiss). apply H7.
    apply elem_of_cons in Hmv' as [->|Hmv']; [|eauto].
    destruct Hmiss. apply head_filter_elem in E as [Hin Ht].
    apply list_elem_of_fmap. eauto.
  - intros [= <- <-]. done.
Qed.

(** X21: the two ways [save_common_movies] ends without saving: when one of
    the users is unknown it returns [False]; when the engine blocks the
    nested insert and a title of the list is not yet in [movies] it
    raises [OperationalError]. In both cases the database is as before. *)
Theorem save_common_movies_refused now un1 un2 l d :
  (forall blocked, get_user un1 d = None \/ get_user un2 d = None ->
     save_common_movies blocked now un1 un2 l d = (Ok false, d))
  /\ (is_Some (get_user un1 d) -> is_Some (get_user un2 d) ->
      (exists mv, mv ∈ l /\ title mv ∉ map m_title (movies d)) ->
      save_common_movies true now un1 un2 l d = (Error OperationalError, d)).
Proof.
  split.
  - intros blocked Hnone. unfold save_common_movies.
    destruct Hnone as [-> | ->]; [done|]. by destruct (get_user un1 d).
  - intros [user1 H1] [user2 H2] Hmiss. unfold save_common_movies.
    rewrite H1, H2.
    match goal with
    | |- context [insert_common_movies true now ?a ?b l ?d0] =>
        destruct (insert_common_movies true now a b l d0) as [o d'] eqn:E
    end.
    apply insert_common_movies_blocked in E as (E1 & E2 & E3 & E4 & E5 & E6 & E7).
    simpl in *. rewrite (E7 Hmiss). f_equal.
    unfold rollback_common_movies. destruct d. simpl in *. by f_equal.
Qed.

(** ** The sync time *)

Lemma get_user_update_user_sync_time now un un' d :
  get_user un' (update_user_sync_time now un d)
  = if decide (un' = un)
    then (fun r => {| u_id := u_id r; u_username := u_username r;
                      u_last_sync := Some now |}) <$> get_user un' d
    else get_user un' d.
Proof.
  unfold get_user, update_user_sync_time. simpl.
  induction (users d) as [|r l IH]; [by case_decide|].
  simpl. rewrite !filter_cons.
  destruct (decide (u_username r = un)) as [Hr|Hr]; simpl.
  - destruct (decide (u_username r = un')) as [Hr'|Hr'].
    + rewrite decide_True by congruence. done.
    + rewrite IH. by rewrite (decide_False (P := un' = un)) by congruence.
  - destruct (decide (u_username r = un')) as [Hr'|Hr'].
    + by rewrite (decide_False (P := un' = un)) by congruence.
    + exact IH.
Qed.


End DatabaseSave.

Section DatabaseOfAComparison.

Import DatabaseManager.

(** ** The database calls of a comparison, run on the database *)

Lemma grows_refl d : grows d d.
Proof. by repeat split. Qed.

Lemma grows_trans d1 d2 d3 : grows d1 d2 -> grows d2 d3 -> grows d1 d3.
Proof. intros (A1 & B1 & C1) (A2 & B2 & C2). repeat split; eauto. Qed.

Lemma grows_subseteq d d' :
  users d ⊆ users d' -> movies d ⊆ movies d' -> user_movies d ⊆ user_movies d' ->
  grows d d'.
Proof.
  intros Hu Hm Hum. repeat split.
  - intros un (r & -> & Hr)%get_user_is_Some%list_elem_of_fmap.
    apply get_user_is_Some, list_elem_of_fmap. eauto.
  - intros t (r & -> & Hr)%list_elem_of_fmap. apply list_elem_of_fmap. eauto.
  - intros un row. by apply get_user_movies_subseteq.
Qed.

Lemma list_bind_map {A B C} (f : A -> B) (g : B -> list C) (l : list A) :
  map f l ≫= g = l ≫= (fun a => g (f a)).
Proof.
  induction l as [|a l IH]; [done|].
  change (map f (a :: l)) with (f a :: map f l). by rewrite !bind_cons, IH.
Qed.

Lemma get_user_movies_update_user_sync_time now un0 un d :
  get_user_movies un (update_user_sync_time now un0 d) = get_user_movies un d.
Proof.
  unfold get_user_movies, update_user_sync_time. simpl.
  apply list_bind_ext; [|done]. intros m.
  apply list_bind_ext; [|done]. intros um.
  rewrite list_bind_map. apply list_bind_ext; [|done]. intros u.
  by destruct (decide (u_username u = un0)).
Qed.

Lemma grows_update_user_sync_time now un d :
  grows d (update_user_sync_time now un d).
Proof.
  repeat split.
  - intros un' [r Hr]. rewrite get_user_update_user_sync_time, Hr.
    by case_decide.
  - done.
  - intros un' row. by rewrite get_user_movies_update_user_sync_time.
Qed.

Lemma run_db_calls_app blocked clock n l1 l2 d :
  run_db_calls blocked clock n (l1 ++ l2) d
  = match run_db_calls blocked clock n l1 d with
    | Some d1 => run_db_calls blocked clock (n + length l1) l2 d1
    | None => None
    end.
Proof.
  revert n d. induction l1 as [|c l1 IH]; intros n d; simpl.
  { by rewrite Nat.add_0_r. }
  destruct (run_db_call blocked (clock n) c d) as [[b|] d1]; [|done].
  rewrite IH. by replace (S n + length l1) with (n + S (length l1)) by lia.
Qed.

(** The [add_user_movie] calls of a watchlist all go through and leave
    every title of the watchlist among the user's movies. *)
Lemma run_add_user_movies blocked clock n u u2 (l : list MovieInfo) d :
  consistent d ->
  exists d',
    run_db_calls blocked clock n (map (fun m => AddUserMovie u u2 (title m)) l) d
    = Some d'
    /\ consistent d' /\ grows d d'
    /\ (l <> [] -> is_Some (get_user u d') /\ is_Some (get_user u2 d'))
    /\ forall m, m ∈ l ->
         title m ∈ map m_title (movies d')
         /\ title m ∈ row_titles (get_user_movies u d').
Proof.
  revert n d. induction l as [|m l IH]; intros n d Hc.
  { exists d. simpl. split; [done|]. split; [done|]. split; [apply grows_refl|].
    split; [done|]. intros m Hm. by apply elem_of_nil in Hm. }
  simpl.
  destruct (add_user_movie_Ok (clock n) u u2 (title m) d)
    as (d1 & Hrun & Hu & Hm & Hum & _ & Hs1 & Hs2 & Ht1 & Ht2).
  rewrite Hrun.
  pose proof (add_user_movie_consistent (clock n) u u2 (title m) d Hc) as Hc1.
  rewrite Hrun in Hc1. simpl in Hc1.
  destruct (IH (S n) d1 Hc1) as (d' & Hrun' & Hc' & Hg & _ & Hall).
  pose proof (grows_subseteq d d1 Hu Hm Hum) as Hg1.
  exists d'. split; [done|]. split; [done|].
  split; [by eapply grows_trans|]. destruct Hg as (G1 & G2 & G3).
  split; [intros _; split; by apply G1|].
  intros m' [->|Hm']%elem_of_cons; [|by apply Hall].
  split; [by apply G2|].
  unfold row_titles in *. apply list_elem_of_fmap in Ht2 as (row & -> & Hrow).
  apply list_elem_of_fmap. exists row. split; [done|]. by apply G3.
Qed.

(** The calls of one [_update_database], with the [found] the database
    answers, all go through; afterwards the user exists, and the titles
    of the watchlist are among their movies. *)
Lemma run_update_database_calls blocked clock n u u2 (l : list MovieInfo) d :
  consistent d ->
  exists d',
    run_db_calls blocked clock n
      (update_database_calls (bool_decide (is_Some (get_user u d))) u u2 l) d
    = Some d'
    /\ consistent d' /\ grows d d'
    /\ is_Some (get_user u d')
    /\ (l <> [] -> is_Some (get_user u2 d'))
    /\ forall m, m ∈ l ->
         title m ∈ map m_title (movies d')
         /\ title m ∈ row_titles (get_user_movies u d').
Proof.
  intros Hc. unfold update_database_calls.
  change (run_db_calls blocked clock n (GetUser u :: ?l0) d)
    with (run_db_calls blocked clock (S n) l0 d).
  assert (Hfirst : exists d1,
            run_db_calls blocked clock (S n)
              (if bool_decide (is_Some (get_user u d)) then [] else [AddUser u]) d
            = Some d1
            /\ consistent d1 /\ grows d d1 /\ is_Some (get_user u d1)).
  { case_bool_decide as Hu.
    - exists d. split; [done|]. split; [done|]. split; [apply grows_refl|done].
    - assert (Hnone : get_user u d = None).
      { destruct (get_user u d); [|done]. by destruct Hu. }
      simpl. unfold add_user. rewrite decide_False by (by apply get_user_None).
      eexists. split; [reflexivity|].
      pose proof (add_user_consistent u d Hc) as Hc1.
      unfold add_user in Hc1. rewrite decide_False in Hc1 by (by apply get_user_None).
      split; [exact Hc1|]. split.
      + apply grows_subseteq; simpl; try done.
        intros r Hr. apply elem_of_app. by left.
      + rewrite get_user_snoc, Hnone. simpl. by rewrite decide_True. }
  destruct Hfirst as (d1 & Hrun1 & Hc1 & Hg1 & Hs1).
  rewrite run_db_calls_app, Hrun1, run_db_calls_app.
  destruct (run_add_user_movies blocked clock
              (S n + length (if bool_decide (is_Some (get_user u d))
                             then [] else [AddUser u])) u u2 l d1 Hc1)
    as (d2 & Hrun2 & Hc2 & Hg2 & Hs2 & Hall).
  rewrite Hrun2. simpl.
  eexists. split; [reflexivity|].
  pose proof (grows_update_user_sync_time
                (clock (S n + length (if bool_decide (is_Some (get_user u d))
                                      then [] else [AddUser u])
                        + length (map (fun m => AddUserMovie u u2 (title m)) l)))
                u d2) as (G1 & G2 & G3).
  split; [by apply update_user_sync_time_consistent|].
  split.
  { eapply grows_trans; [exact Hg1|]. eapply grows_trans; [exact Hg2|].
    by repeat split. }
  destruct Hg2 as (F1 & _ & _).
  split; [by apply G1, F1|].
  split; [intros Hl; apply G1; by apply Hs2|].
  intros m Hm. destruct (Hall m Hm) as [Ht1 Ht2]. split; [by apply G2|].
  unfold row_titles in *. apply list_elem_of_fmap in Ht2 as (row & -> & Hrow).
  apply list_elem_of_fmap. exists row. split; [done|]. by apply G3.
Qed.



End DatabaseOfAComparison.
